(** * Nearest-imagery resolution of the Mapillary street explorer

    A shallow embedding of the decision logic of [app.py]: the geocoder
    with bounded retry ([geocode_nominatim]), the geometry helpers
    ([_deg_for_meters], [_haversine_m]), the candidate ranker
    ([rank_items]), the expanding-radius resolver
    ([mapillary_find_best]), the date formatter ([_fmt_date]) and the
    statements of the page script that search, download and display.

    Conventions of the embedding.
    - Python values that come out of [r.json()] are terms of [json];
      a JSON object is a finite map from strings to values.
    - Python floats are idealised as real numbers: the model covers
      finite floats and neglects the rounding of their values; NaN,
      infinities and overflow are outside it, except for [float("inf")],
      which is the extra element [Inf] of [dist]. Where binary64
      arithmetic raises and real arithmetic does not, the outcome is a
      parameter, [float_errors]: for which arguments the distance formula
      leaves the domain of [math.asin], and for which the degree offsets
      cannot be computed. For the claim that depends on the rounding of
      values, the degree offsets are also given in binary64
      ([_deg_for_meters64]) and under an arbitrary rounding
      ([_deg_for_meters_fl]).
    - A string is the sequence of the bytes of its UTF-8 encoding.
    - Exceptions are explicit: a computation yields [Ok v] or [Exc e].
    - The network and the clock are explicit: a computation threads the
      trace of the requests sent and the sleeps taken so far, and the
      remote side is a function from that trace and the request to a
      reply, so that a provider may answer every call differently. *)

From Corelib Require Import PrimFloat.
From Stdlib Require Import Reals Lra ZArith.
From stdpp Require Import base strings list gmap sorting.

#[local] Set Warnings "-register-all".
#[local] Open Scope Z_scope.

(** ** Python values *)

Inductive json : Type :=
  | JNull
  | JBool (b : bool)
  | JNum (r : R)
  | JStr (s : string)
  | JArr (l : list json)
  | JObj (m : gmap string json).

(** Truth value of a Python object, as tested by [if x], [not x] and
    [x or y]. *)
Definition truthy (j : json) : bool :=
  match j with
  | JNull => false
  | JBool b => b
  | JNum r => if Req_dec_T r 0 then false else true
  | JStr s => negb (String.eqb s "")
  | JArr l => match l with [] => false | _ :: _ => true end
  | JObj m => negb (bool_decide (m = ∅))
  end.

Inductive exn : Type :=
  | RequestException   (* connection error or timeout in requests.get *)
  | HTTPError          (* raise_for_status on a non-2xx status *)
  | JSONDecodeError    (* r.json() on a malformed body *)
  | AttributeError
  | TypeError
  | KeyError
  | IndexError
  | ValueError
  | OverflowError.

Inductive result (A : Type) : Type :=
  | Ok (a : A)
  | Exc (e : exn).
Arguments Ok {A} a.
Arguments Exc {A} e.

#[global] Instance result_ret : MRet result := λ A a, Ok a.
#[global] Instance result_bind : MBind result := λ A B f m,
  match m with Ok a => f a | Exc e => Exc e end.

(** Unfolds the monad operations of [result] where they can compute. *)
Ltac rsimpl :=
  unfold mret, mbind, result_ret, result_bind in *; cbn beta iota in *.

(** [d.get(k, dflt)]: only a dict has the method. *)
Definition py_get (d : json) (k : string) (dflt : json) : result json :=
  match d with
  | JObj m => Ok (default dflt (m !! k))
  | _ => Exc AttributeError
  end.

(** [d[k]] for a string key [k]. *)
Definition py_item (d : json) (k : string) : result json :=
  match d with
  | JObj m => match m !! k with Some v => Ok v | None => Exc KeyError end
  | _ => Exc TypeError
  end.

(** [d[0]]. *)
Definition py_first (d : json) : result json :=
  match d with
  | JArr (x :: _) => Ok x
  | JArr [] => Exc IndexError
  | JStr (String c _) => Ok (JStr (String c EmptyString))
  | JStr EmptyString => Exc IndexError
  | JObj _ => Exc KeyError
  | _ => Exc TypeError
  end.

(** A value used as a number in float arithmetic; [True] counts as 1. *)
Definition py_number (j : json) : result R :=
  match j with
  | JNum r => Ok r
  | JBool b => Ok (if b then 1%R else 0%R)
  | _ => Exc TypeError
  end.

(** The built-in [float(x)]; [float_of_str] is its behaviour on strings. *)
Definition py_float (float_of_str : string → option R) (j : json) : result R :=
  match j with
  | JNum r => Ok r
  | JBool b => Ok (if b then 1%R else 0%R)
  | JStr s => match float_of_str s with Some r => Ok r | None => Exc ValueError end
  | _ => Exc TypeError
  end.

(** [a or b], where evaluating [b] may raise. *)
Definition py_or (a : json) (b : result json) : result json :=
  if truthy a then Ok a else b.

(** ** The outside world *)

Inductive pval : Type :=
  | PStr (s : string)
  | PInt (n : Z)
  | PFloats (l : list R).   (* floats formatted and joined by commas *)

Record request : Type := Request {
  url : string;
  params : list (string * pval);
  headers : list (string * string);
  timeout : Z
}.

Inductive reply : Type :=
  | NoReply                                          (* requests.get raised *)
  | Reply (status_ok : bool) (body : option json).  (* body None: not JSON *)

Inductive event : Type :=
  | Get (rq : request)
  | Sleep (d : R).

Definition provider : Type := list event → request → reply.

(** Computations that may raise and that extend the trace. *)
Definition M (A : Type) : Type := list event → result A * list event.

#[global] Instance M_ret : MRet M := λ A a tr, (Ok a, tr).
#[global] Instance M_bind : MBind M := λ A B f m tr,
  match m tr with
  | (Ok a, tr') => f a tr'
  | (Exc e, tr') => (Exc e, tr')
  end.

Definition lift {A} (r : result A) : M A := λ tr, (r, tr).

(** Unfolds the monad operations of [M] and [result]. *)
Ltac msimpl :=
  unfold mret, mbind, M_ret, M_bind, result_ret, result_bind, lift in *;
  cbn beta iota in *.

(** [try: body  except Exception: handler]. *)
Definition try_except {A} (body : M A) (handler : M A) : M A := λ tr,
  match body tr with
  | (Ok a, tr') => (Ok a, tr')
  | (Exc _, tr') => handler tr'
  end.

Definition requests_get (P : provider) (rq : request) : M reply := λ tr,
  match P tr rq with
  | NoReply => (Exc RequestException, tr ++ [Get rq])
  | r => (Ok r, tr ++ [Get rq])
  end.

Definition raise_for_status (r : reply) : M () :=
  match r with
  | Reply true _ => mret ()
  | _ => lift (Exc HTTPError)
  end.

Definition r_json (r : reply) : M json :=
  match r with
  | Reply _ (Some j) => mret j
  | _ => lift (Exc JSONDecodeError)
  end.

(** [time.sleep(d)] raises ValueError on a negative length. The pauses
    of the model are below the limit of the clock, about 9.2e9 seconds,
    beyond which the call raises OverflowError. *)
Definition time_sleep (d : R) : M () := λ tr,
  if Rlt_dec d 0 then (Exc ValueError, tr) else (Ok (), tr ++ [Sleep d]).

(** What one iteration of a [for] loop does to the control flow. *)
Inductive ctl (A : Type) : Type :=
  | Return (a : A)
  | Next.
Arguments Return {A} a.
Arguments Next {A}.

(** ** Geocoder *)

Record geo : Type := Geo {
  geo_lat : R;
  geo_lon : R;
  geo_label : json
}.

Definition nominatim_request (address : string) : request :=
  {| url := "https://nominatim.openstreetmap.org/search";
     params := [("q", PStr address); ("format", PStr "json"); ("limit", PInt 1)];
     headers := [("User-Agent", "MapillaryExplorer/1.0 (edu/demo)")];
     timeout := 20 |}.

Section Geocoder.
Variable P : provider.
Variable float_of_str : string → option R.

(** The part of the [try] block after [data = r.json()]. *)
Definition geocode_read (address : string) (data : json) : result (option geo) :=
  if truthy data then
    d0 ← py_first data;
    la ← py_item d0 "lat";
    lat ← py_float float_of_str la;
    d0' ← py_first data;
    lo ← py_item d0' "lon";
    lon ← py_float float_of_str lo;
    d0'' ← py_first data;
    label ← py_get d0'' "display_name" (JStr address);
    mret (Some (Geo lat lon label))
  else mret None.

(** The [try] block of one attempt. *)
Definition geocode_try (address : string) : M (ctl (option geo)) :=
  r ← requests_get P (nominatim_request address);
  raise_for_status r;;
  data ← r_json r;
  v ← lift (geocode_read address data);
  mret (Return v).

(** The [except] block of attempt [i]. *)
Definition geocode_except (retries : Z) (delay : R) (i : nat) : M (ctl (option geo)) :=
  if Z.of_nat i =? retries - 1 then mret (Return None)
  else time_sleep delay;; mret Next.

Fixpoint geocode_loop (address : string) (retries : Z) (delay : R)
    (range : list nat) : M (option geo) :=
  match range with
  | [] => mret None
  | i :: range' =>
      c ← try_except (geocode_try address) (geocode_except retries delay i);
      match c with
      | Return v => mret v
      | Next => geocode_loop address retries delay range'
      end
  end.

Definition geocode_nominatim (address : string) (retries : Z) (delay : R)
    : M (option geo) :=
  if negb (truthy (JStr address)) then mret None
  else geocode_loop address retries delay (seq 0 (Z.to_nat retries)).

(** The call with the defaults of the signature, [retries=3, delay=0.8]. *)
Definition geocode_nominatim_default (address : string) : M (option geo) :=
  geocode_nominatim address 3 0.8%R.
End Geocoder.

(** ** Distance and geometry helpers *)

Definition radians (x : R) : R := (x * (PI / 180))%R.

Definition _deg_for_meters (lat_deg meters : R) : R * R :=
  let dlat := (meters / 111320)%R in
  let dlon := (dlat * cos (radians lat_deg))%R in
  (dlat, dlon).

(** The argument of [sqrt] in the haversine formula. *)
Definition haversine_a (lat1 lon1 lat2 lon2 : R) : R :=
  let dlat := radians (lat2 - lat1) in
  let dlon := radians (lon2 - lon1) in
  ((sin (dlat / 2)) ^ 2
   + cos (radians lat1) * cos (radians lat2) * (sin (dlon / 2)) ^ 2)%R.

(** The value of the formula in exact arithmetic. The call of the
    function, which can raise, is [haversine_call] below. *)
Definition _haversine_m (lat1 lon1 lat2 lon2 : R) : R :=
  let R0 := 6371000%R in
  (2 * R0 * asin (sqrt (haversine_a lat1 lon1 lat2 lon2)))%R.

(** ** Where binary64 arithmetic raises *)

(** The two helpers are total on the reals; on floats they are not.
    - [_haversine_m]: in exact arithmetic the argument of [sqrt] lies
      between 0 and 1; in binary64 rounding can put it above 1 for two
      points that are nearly antipodal, and [math.asin] then raises
      ValueError. [domain_error lat1 lon1 lat2 lon2] says that this
      happens.
    - [_deg_for_meters]: the division raises OverflowError for an integer
      too large for a float, and [math.cos] raises ValueError for an
      infinite latitude. [offsets_error lat meters] gives the exception,
      if there is one.
    Every statement about the resolver holds for all values of the two
    fields. *)
Record float_errors : Type := FloatErrors {
  domain_error : R → R → R → R → bool;
  offsets_error : R → R → option exn
}.

(** The call [_haversine_m(lat1, lon1, lat2, lon2)]. *)
Definition haversine_call (fe : float_errors) (lat1 lon1 lat2 lon2 : R)
    : result R :=
  if domain_error fe lat1 lon1 lat2 lon2 then Exc ValueError
  else Ok (_haversine_m lat1 lon1 lat2 lon2).

(** The call [_deg_for_meters(lat_deg, meters)]. *)
Definition deg_for_meters_call (fe : float_errors) (lat_deg meters : R)
    : result (R * R) :=
  match offsets_error fe lat_deg meters with
  | Some e => Exc e
  | None => Ok (_deg_for_meters lat_deg meters)
  end.

(** ** The degree offsets with rounding *)

(** [_deg_for_meters] in binary64, given the float [cos_lat] that
    [math.cos(math.radians(lat_deg))] returns. *)
Definition _deg_for_meters64 (cos_lat meters : float) : float * float :=
  let dlat := PrimFloat.div meters 111320%float in
  let dlon := PrimFloat.mul dlat cos_lat in
  (dlat, dlon).

(** [math.cos(math.radians(48.0))], 0.6691306063588582. *)
Definition cos_48 : float := 0x1.5698496e20bd8p-1%float.

(** A function on floats is strictly increasing. *)
Definition strictly_increasing64 (f : float → float) : Prop :=
  ∀ a b : float, PrimFloat.ltb a b = true → PrimFloat.ltb (f a) (f b) = true.

Section Rounded.
(** [_deg_for_meters] where every operation is followed by the rounding
    [fl], and [cos_radians lat_deg] is the value computed for
    [math.cos(math.radians(lat_deg))]. *)
Variable fl : R → R.
Variable cos_radians : R → R.

Definition _deg_for_meters_fl (lat_deg meters : R) : R * R :=
  let dlat := fl (meters / 111320)%R in
  let dlon := fl (dlat * cos_radians lat_deg)%R in
  (dlat, dlon).
End Rounded.

(** A rounding keeps the order of the numbers it rounds. *)
Definition monotone (fl : R → R) : Prop :=
  ∀ x y : R, (x <= y)%R → (fl x <= fl y)%R.

(** ** Ranker *)

(** A distance: a float, or [float("inf")]. *)
Inductive dist : Type :=
  | Fin (r : R)
  | Inf.

Definition dist_ltb (a b : dist) : bool :=
  match a, b with
  | Fin x, Fin y => if Rlt_dec x y then true else false
  | Fin _, Inf => true
  | Inf, _ => false
  end.

(** One entry of [ranked]: [(bool(is_pano), dist, it)]. *)
Definition entry : Type := bool * dist * json.

Definition e_pano (t : entry) : bool := t.1.1.
Definition e_dist (t : entry) : dist := t.1.2.
Definition e_item (t : entry) : json := t.2.

(** The sort key [lambda x: (-int(x[0]), x[1])]. *)
Definition sort_key (t : entry) : Z * dist := (- Z.b2z (e_pano t), e_dist t).

(** [k1 < k2] on key tuples: the first components decide unless equal. *)
Definition key_ltb (k1 k2 : Z * dist) : bool :=
  if k1.1 =? k2.1 then dist_ltb k1.2 k2.2 else k1.1 <? k2.1.

(** [ranked.sort(key=...)] is a stable sort that only compares keys with
    [<]; it is embedded as the insertion sort that puts an entry in front
    of the first later entry whose key is not smaller. *)
Fixpoint insert_entry (x : entry) (l : list entry) : list entry :=
  match l with
  | [] => [x]
  | y :: l' =>
      if key_ltb (sort_key y) (sort_key x) then y :: insert_entry x l'
      else x :: y :: l'
  end.

Definition sort_ranked (l : list entry) : list entry :=
  foldr insert_entry [] l.

Section Ranker.
Variable fe : float_errors.
(** [rank_items] is a closure over the origin [lat], [lon]. *)
Variables lat lon : R.

(** The body of the [for it in items] loop for one element. *)
Definition rank_item (it : json) : result entry :=
  g ← py_get it "computed_geometry" JNull;
  geom ← py_get (if truthy g then g else JObj ∅) "coordinates" JNull;
  d ← match geom with
      | JArr [x; y] =>
          lat2 ← py_number y;
          lon2 ← py_number x;
          h ← haversine_call fe lat lon lat2 lon2;
          mret (Fin h)
      | _ => mret Inf
      end;
  p ← py_get it "is_pano" JNull;
  mret (truthy p, d, it).

(** The elements that [for it in items] visits. *)
Definition py_iter (items : json) : result (list json) :=
  match items with
  | JArr l => Ok l
  | JObj m => Ok (JStr <$> (map_to_list m).*1)
  | JStr s => Ok ((λ c, JStr (String c EmptyString)) <$> String.list_ascii_of_string s)
  | _ => Exc TypeError
  end.

Definition rank_items (items : json) : result (list entry) :=
  l ← py_iter items;
  ranked ← mapM rank_item l;
  mret (sort_ranked ranked).
End Ranker.

(** ** Resolver *)

Definition MAP_FIELDS : string :=
  "id,computed_geometry,thumb_1024_url,thumb_2048_url,captured_at,is_pano".

Definition base : string := "https://graph.mapillary.com/images".

Definition default_radii : list R :=
  [150; 300; 600; 1200; 3000; 6000; 10000]%R.

(** The result [(None, None)]. *)
Definition Empty : json * json := (JNull, JNull).

Definition closeto_request (token : string) (lat lon : R) : request :=
  {| url := base;
     params := [("access_token", PStr token); ("fields", PStr MAP_FIELDS);
                ("limit", PInt 20); ("closeto", PFloats [lat; lon])];
     headers := [];
     timeout := 20 |}.

Definition bbox_request (token : string) (lat lon radius : R) : request :=
  let '(dlat, dlon) := _deg_for_meters lat radius in
  {| url := base;
     params := [("access_token", PStr token); ("fields", PStr MAP_FIELDS);
                ("limit", PInt 50);
                ("bbox", PFloats [lon - dlon; lat - dlat; lon + dlon; lat + dlat]%R)];
     headers := [];
     timeout := 20 |}.

(** [return it.get("thumb_1024_url") or it.get("thumb_2048_url"), it]. *)
Definition pick (it : json) : result (json * json) :=
  a ← py_get it "thumb_1024_url" JNull;
  u ← py_or a (py_get it "thumb_2048_url" JNull);
  mret (u, it).

(** The selection that follows [ranked = rank_items(items)], the same in
    the direct attempt and in every radius of the cascade. *)
Definition choose (require_pano : bool) (ranked : list entry)
    : result (ctl (json * json)) :=
  if require_pano then
    match List.filter e_pano ranked with
    | t :: _ => v ← pick (e_item t); mret (Return v)
    | [] => mret Next
    end
  else
    match ranked with
    | t :: _ => v ← pick (e_item t); mret (Return v)
    | [] => Exc IndexError
    end.

(** [not token or not token.startswith("MLY|")]; [None] is an absent token. *)
Definition token_rejected (token : option string) : bool :=
  match token with
  | None => true
  | Some s => negb (truthy (JStr s)) || negb (String.prefix "MLY|" s)
  end.

Section Resolver.
Variable fe : float_errors.
Variable P : provider.
Variables lat lon : R.
Variable token : string.
Variable require_pano : bool.

(** From [items = r.json().get("data", [])] on, for a truthy [items]. *)
Definition read_items (r : reply) : M json :=
  raise_for_status r;;
  body ← r_json r;
  lift (py_get body "data" (JArr [])).

(** The [try] block of the direct proximity attempt. *)
Definition direct_try : M (ctl (json * json)) :=
  r ← requests_get P (closeto_request token lat lon);
  items ← read_items r;
  if truthy items then
    ranked ← lift (rank_items fe lat lon items);
    lift (choose require_pano ranked)
  else mret Next.

(** The [try] block of one radius. *)
Definition bbox_try (radius : R) : M (ctl (json * json)) :=
  r ← requests_get P (bbox_request token lat lon radius);
  items ← read_items r;
  if negb (truthy items) then mret Next
  else
    ranked ← lift (rank_items fe lat lon items);
    lift (choose require_pano ranked).

(** [for radius in radii_m: ...], then [return None, None]. The call of
    [_deg_for_meters] stands before the [try]: an exception it raises ends
    the function. Its value is used by [bbox_request]. *)
Fixpoint cascade (radii_m : list R) : M (json * json) :=
  match radii_m with
  | [] => mret Empty
  | radius :: radii' =>
      lift (deg_for_meters_call fe lat radius);;
      c ← try_except (bbox_try radius) (mret Next);
      match c with
      | Return v => mret v
      | Next => cascade radii'
      end
  end.

(** The body of [mapillary_find_best] below the token check. *)
Definition search (radii_m : list R) : M (json * json) :=
  c ← try_except direct_try (mret Next);
  match c with
  | Return v => mret v
  | Next => cascade radii_m
  end.
End Resolver.

Definition mapillary_find_best (fe : float_errors)
    (P : provider) (lat lon : R)
    (token : option string) (radii_m : list R) (require_pano : bool)
    : M (json * json) :=
  if token_rejected token then mret Empty
  else
    match token with
    | Some s => search fe P lat lon s require_pano radii_m
    | None => mret Empty
    end.

(** * Specification vocabulary *)

(** ** The ranking order *)

(** [a <= b] on distances, with [Inf] on top. *)
Definition dist_le (a b : dist) : Prop :=
  match a, b with
  | Fin x, Fin y => (x <= y)%R
  | _, Inf => True
  | Inf, Fin _ => False
  end.

(** [a] may stand in front of [b]: panoramic before non-panoramic, then
    the smaller distance first. *)
Definition ranks_before (a b : entry) : Prop :=
  (e_pano a = true ∧ e_pano b = false)
  ∨ (e_pano a = e_pano b ∧ dist_le (e_dist a) (e_dist b)).

(** Equality of distances. *)
Definition dist_eqb (a b : dist) : bool :=
  match a, b with
  | Fin x, Fin y => if Req_dec_T x y then true else false
  | Inf, Inf => true
  | _, _ => false
  end.

(** [t] has panorama flag [p] and distance [d]. *)
Definition tied (p : bool) (d : dist) (t : entry) : bool :=
  Bool.eqb p (e_pano t) && dist_eqb d (e_dist t).

(** ** Candidates as the ranker reads them *)

(** [it.get(k)] on a record, [None] elsewhere. *)
Definition field (it : json) (k : string) : json :=
  match it with
  | JObj m => default JNull (m !! k)
  | _ => JNull
  end.

Definition is_object (j : json) : bool :=
  match j with JObj _ => true | _ => false end.

Definition is_number (j : json) : bool :=
  match j with JNum _ | JBool _ => true | _ => false end.

Definition number_of (j : json) : R :=
  match j with
  | JNum r => r
  | JBool true => 1%R
  | _ => 0%R
  end.

(** The coordinate of a candidate, in the provider's (longitude,
    latitude) order; [None] when the candidate has no usable geometry. *)
Definition coordinate (it : json) : option (json * json) :=
  match field (field it "computed_geometry") "coordinates" with
  | JArr [x; y] => Some (x, y)
  | _ => None
  end.

Definition is_pano (it : json) : bool := truthy (field it "is_pano").
Definition thumb_small (it : json) : json := field it "thumb_1024_url".
Definition thumb_large (it : json) : json := field it "thumb_2048_url".

(** A thumbnail field counts as present when it is truthy. *)
Definition preview (it : json) : json :=
  if truthy (thumb_small it) then thumb_small it else thumb_large it.

(** A record the ranker can read without raising: an object whose
    geometry, when given, is an object, and whose coordinate pair, when
    given, consists of numbers. *)
Definition well_formed (it : json) : bool :=
  is_object it
  && (negb (truthy (field it "computed_geometry"))
      || is_object (field it "computed_geometry"))
  && match coordinate it with
     | Some (x, y) => is_number x && is_number y
     | None => true
     end.

(** The distance [rank_items] gives a record it can rank. *)
Definition distance (lat lon : R) (it : json) : dist :=
  match coordinate it with
  | Some (x, y) => Fin (_haversine_m lat lon (number_of y) (number_of x))
  | None => Inf
  end.

(** A record the ranker reads and whose distance it can compute. *)
Definition readable (fe : float_errors) (lat lon : R)
    (it : json) : bool :=
  well_formed it
  && match coordinate it with
     | Some (x, y) => negb (domain_error fe lat lon (number_of y) (number_of x))
     | None => true
     end.

Definition rank_entry (lat lon : R) (it : json) : entry :=
  (is_pano it, distance lat lon it, it).

(** The ranking of a list of well-formed candidates. *)
Definition rank (lat lon : R) (items : list json) : list entry :=
  sort_ranked (rank_entry lat lon <$> items).

(** ** Attempts of the resolver *)

(** What one [try] block of the resolver leaves to its loop, as a
    function of the reply: every exception ends in [Next]. *)
Definition answer (fe : float_errors) (require_pano : bool)
    (lat lon : R) (r : reply) : ctl (json * json) :=
  match r with
  | Reply true (Some body) =>
      match
        items ← py_get body "data" (JArr []);
        if truthy items then
          ranked ← rank_items fe lat lon items;
          choose require_pano ranked
        else mret Next
      with
      | Ok c => c
      | Exc _ => Next
      end
  | _ => Next
  end.

(** The reply never reached the point where records are read. *)
Definition transport_failure (r : reply) : Prop :=
  match r with
  | NoReply => True
  | Reply ok body => ok = false ∨ body = None
  end.

(** The reply is a 2xx answer whose body lists the candidates [items]
    under ["data"] (no ["data"] key: no candidates), all of them readable
    from the origin. *)
Definition carries (fe : float_errors) (lat lon : R)
    (r : reply) (items : list json) : Prop :=
  ∃ m, r = Reply true (Some (JObj m))
       ∧ default (JArr []) (m !! "data") = JArr items
       ∧ forallb (readable fe lat lon) items = true.

(** The qualifying candidate of a list: the first panoramic entry of the
    ranking when a panorama is required, the top entry otherwise. *)
Definition qualifying (require_pano : bool) (lat lon : R) (items : list json)
    : option json :=
  e_item <$> head (if require_pano then List.filter e_pano (rank lat lon items)
                   else rank lat lon items).

(** The reply gives the loop nothing to return. *)
Definition miss (fe : float_errors) (require_pano : bool)
    (lat lon : R) (r : reply) : Prop :=
  transport_failure r
  ∨ ∃ items, carries fe lat lon r items
             ∧ qualifying require_pano lat lon items = None.

(** The reply holds the qualifying candidate [it]. *)
Definition hit (fe : float_errors) (require_pano : bool)
    (lat lon : R) (r : reply) (it : json) : Prop :=
  ∃ items, carries fe lat lon r items
           ∧ qualifying require_pano lat lon items = Some it.

(** The degree offsets can be computed for every radius of [rs]. *)
Definition offsets_ok (fe : float_errors) (lat : R) (rs : list R) : Prop :=
  Forall (λ r, offsets_error fe lat r = None) rs.

(** The requests the cascade sends for the radii [rs], in order. *)
Definition bbox_gets (token : string) (lat lon : R) (rs : list R) : list event :=
  (λ r, Get (bbox_request token lat lon r)) <$> rs.

(** Every radius of [rs], queried in order from the trace [tr] on,
    misses. *)
Fixpoint all_miss (fe : float_errors) (P : provider)
    (lat lon : R) (token : string)
    (require_pano : bool) (tr : list event) (rs : list R) : Prop :=
  match rs with
  | [] => True
  | r :: rs' =>
      miss fe require_pano lat lon
        (P tr (bbox_request token lat lon r))
      ∧ all_miss fe P lat lon token require_pano
          (tr ++ [Get (bbox_request token lat lon r)]) rs'
  end.

(** ** Attempts of the geocoder *)

(** What the [try] block of one geocoding attempt evaluates to, as a
    function of the reply. *)
Definition geocode_reply (float_of_str : string → option R) (address : string)
    (r : reply) : result (option geo) :=
  match r with
  | NoReply => Exc RequestException
  | Reply false _ => Exc HTTPError
  | Reply true None => Exc JSONDecodeError
  | Reply true (Some data) => geocode_read float_of_str address data
  end.

(** A 2xx answer with a JSON body from which no match can be read. *)
Definition parsing_failure (float_of_str : string → option R) (address : string)
    (r : reply) : Prop :=
  ∃ data e, r = Reply true (Some data)
            ∧ geocode_read float_of_str address data = Exc e.

(** A transport or parsing failure of one geocoding attempt. *)
Definition geocode_failure (float_of_str : string → option R) (address : string)
    (r : reply) : Prop :=
  transport_failure r ∨ parsing_failure float_of_str address r.

(** The trace of [k] failed attempts, each followed by the pause. *)
Definition pauses (address : string) (delay : R) (k : nat) : list event :=
  concat (replicate k [Get (nominatim_request address); Sleep delay]).

(** ** Growth of the trace *)

(** Whatever it evaluates to, the computation [m] keeps the events of
    the trace it starts from and adds at most [n]. *)
Definition grows {A} (n : nat) (m : M A) : Prop :=
  ∀ tr, ∃ evs, (m tr).2 = tr ++ evs ∧ (length evs <= n)%nat.

(** ** Points at a known distance *)

(** The latitude, in degrees, of the point [d] meters north of the
    origin of the equator. *)
Definition north_of_origin (d : R) : R := d * 180 / (6371000 * PI).

(** * Sample records and providers *)

(** A JSON object given by its members. *)
Definition record (members : list (string * json)) : json :=
  JObj (list_to_map members).

(** A GeoJSON point. *)
Definition point (lon lat : R) : json :=
  record [("type", JStr "Point"); ("coordinates", JArr [JNum lon; JNum lat])].

(** An image record [d] meters north of the origin, without thumbnails. *)
Definition image_north (pano : bool) (d : R) : json :=
  record [("is_pano", JBool pano);
          ("computed_geometry", point 0 (north_of_origin d))].

(** The three candidates non-panoramic/500, panoramic/800, panoramic/100. *)
Definition three_images : list json :=
  [image_north false 500; image_north true 800; image_north true 100].

Definition three_ranked : list entry :=
  [(true, Fin 100, image_north true 100);
   (true, Fin 800, image_north true 800);
   (false, Fin 500, image_north false 500)].

(** A panoramic record with neither geometry nor thumbnails. *)
Definition bare_pano : json :=
  record [("id", JStr "101"); ("is_pano", JBool true)].

(** A flat record with a small thumbnail and no geometry. *)
Definition flat_thumb : json :=
  record [("id", JStr "102"); ("thumb_1024_url", JStr "https://img.example/102")].

(** A flat record at the origin. *)
Definition flat_here : json :=
  record [("id", JStr "103"); ("is_pano", JBool false);
          ("computed_geometry", point 0 0)].

(** A 2xx reply whose body is [{"data": items}]. *)
Definition data_reply (items : list json) : reply :=
  Reply true (Some (record [("data", JArr items)])).

(** A provider that gives the same reply to every request. *)
Definition always (r : reply) : provider := λ _ _, r.

(** A provider that is unreachable for the first [n] requests and gives
    [r] from then on. *)
Definition after_failures (n : nat) (r : reply) : provider := λ tr _,
  if (length tr <? n)%nat then NoReply else r.

(** A geocoding body with one match. *)
Definition one_match : json :=
  JArr [record [("lat", JNum 48); ("lon", JNum 2); ("display_name", JStr "Paris")]].

(** A string-to-float conversion that rejects every string. *)
Definition no_float : string → option R := λ _, None.

(** Arithmetic in which no call raises. *)
Definition no_errors : float_errors :=
  {| domain_error := λ _ _ _ _, false; offsets_error := λ _ _, None |}.

(** A place and a record that lies nearly opposite to it on the globe:
    in binary64 the haversine term for the two is 1.0000000000000004. *)
Definition far_lat : R := 65.02595082620158.
Definition far_lon : R := -27.82429016631781.
Definition antipode_lat : R := -65.02595082620157.
Definition antipode_lon : R := 152.1757098336822.

Definition antipode : json :=
  record [("id", JStr "106");
          ("thumb_1024_url", JStr "https://img.example/106");
          ("computed_geometry", point antipode_lon antipode_lat)].

(** Arithmetic in which the distance between that place and that record
    is the only one that cannot be computed. *)
Definition antipode_error : float_errors :=
  {| domain_error := λ lat1 lon1 lat2 lon2,
       if Req_dec_T lat1 far_lat then
         if Req_dec_T lon1 far_lon then
           if Req_dec_T lat2 antipode_lat then
             if Req_dec_T lon2 antipode_lon then true else false
           else false
         else false
       else false;
     offsets_error := λ _ _, None |}.

(** Arithmetic in which the offsets for a radius above 10^308 meters
    overflow. *)
Definition overflow_error : float_errors :=
  {| domain_error := λ _ _ _ _, false;
     offsets_error := λ _ meters,
       if Rlt_dec (10 ^ 308) meters then Some OverflowError else None |}.

(** * Date formatting and the page script *)

(** ** Date formatting *)

(** [s.replace(c, by)] for a one-character [c]. *)
Fixpoint replace_char (c : Ascii.ascii) (by_ : string) (s : string) : string :=
  match s with
  | EmptyString => EmptyString
  | String a s' =>
      if Ascii.eqb a c then by_ +:+ replace_char c by_ s'
      else String a (replace_char c by_ s')
  end.

(** The character [Z], code 90. *)
Definition char_Z : Ascii.ascii := Ascii.ascii_of_nat 90.

(** A byte [10xxxxxx], which continues a character of more than one
    byte. *)
Definition utf8_continuation (c : Ascii.ascii) : bool :=
  (128 <=? Ascii.nat_of_ascii c)%nat && (Ascii.nat_of_ascii c <? 192)%nat.

(** [len(s)]: the number of characters, one for every byte that starts
    one. *)
Fixpoint utf8_length (s : string) : nat :=
  match s with
  | EmptyString => 0%nat
  | String c s' =>
      if utf8_continuation c then utf8_length s' else S (utf8_length s')
  end.

(** [s[:n]]: the bytes of the first [n] characters. *)
Fixpoint utf8_take (n : nat) (s : string) : string :=
  match s with
  | EmptyString => EmptyString
  | String c s' =>
      if utf8_continuation c then String c (utf8_take n s')
      else
        match n with
        | O => EmptyString
        | S n' => String c (utf8_take n' s')
        end
  end.

(** The string is empty or starts with the first byte of a character. *)
Definition utf8_boundary (s : string) : bool :=
  match s with
  | EmptyString => true
  | String c _ => negb (utf8_continuation c)
  end.

Section FmtDate.
(** The library calls of [_fmt_date]; [None] stands for a raised
    exception. *)
Variable utc_date : R → option string.
  (* datetime.utcfromtimestamp(v).date().isoformat() *)
Variable iso_date : string → option string.
  (* datetime.fromisoformat(s).date().isoformat() *)
Variable py_str : json → string.
  (* str(value) *)

Definition _fmt_date (value : json) : string :=
  if negb (truthy value) then ""
  else
    match value with
    | JNum _ | JBool _ =>
        match py_number value with
        | Ok v =>
            let v' := if Rlt_dec 1000000000000 v then (v / 1000)%R else v in
            match utc_date v' with
            | Some d => d
            | None => ""
            end
        | Exc _ => ""
        end
    | JStr s =>
        match iso_date (replace_char char_Z "+00:00" s) with
        | Some d => d
        | None => utf8_take 10 s
        end
    | _ => py_str value
    end.
End FmtDate.

(** ** The page script *)

(** The statements at the top level of [app.py] that decide what is
    searched, what is downloaded and what is shown. The calls that put a
    message on the page ([st.warning], [st.error], [st.success],
    [st.info]) are recorded as notices and taken not to raise; the calls
    that draw the location and the map, the image widget and the panorama
    viewer are parameters that may raise. The footer of lines 268-273
    sends nothing and is left out. *)

(** The messages the script shows with [st.warning], [st.error],
    [st.success] and [st.info]. *)
Inductive notice : Type :=
  | Warning (s : string)
  | Error (s : string)
  | Success (s : string)
  | Info (s : string).

(** A part of the script either shows a notice and calls [st.stop()], or
    goes on with a value. *)
Inductive page (A : Type) : Type :=
  | Stopped (n : notice)
  | Continue (a : A).
Arguments Stopped {A} n.
Arguments Continue {A} a.

(** What the imagery section has settled when it goes on: the record,
    the URL of the static preview, the panorama flag, the capture date and,
    for a panorama, the URL handed to the viewer. *)
Record view : Type := View {
  v_meta : json;
  v_static_url : json;
  v_is_pano : bool;
  v_date : string;
  v_pano_url : option json
}.

(** [try: body  except Exception as e: handler]. *)
Definition try_except_as {A} (body : M A) (handler : exn → M A) : M A := λ tr,
  match body tr with
  | (Ok a, tr') => (Ok a, tr')
  | (Exc e, tr') => handler e tr'
  end.

Section Page.
Variable fe : float_errors.
Variable P : provider.
Variable float_of_str : string → option R.
Variable strip : string → string.   (* str.strip() *)
Variable utc_date : R → option string.
Variable iso_date : string → option string.
Variable py_str : json → string.
Variable exn_text : exn → string.   (* str(e) *)
Variable draw_location : geo → result ().
  (* lines 221-230: the coordinates, render_map and st_folium *)
Variable st_image : reply → result ().
  (* st.image(img.content, ...) *)
Variable st_viewer : reply → result ().
  (* pannellum_html_from_image_bytes(pbytes.content) and
     st.components.v1.html *)

(** The handler of the search button, up to the assignment to
    [st.session_state.last_result]. *)
Definition on_search (address : string) (token : option string) : M (page geo) :=
  if negb (truthy (JStr (strip address))) then
    mret (Stopped (Warning "Please enter an address."))
  else if token_rejected token then
    mret (Stopped
            (Error "Please provide a valid Mapillary token (starts with 'MLY|')."))
  else
    geo ← geocode_nominatim_default P float_of_str (strip address);
    match geo with
    | None =>
        mret (Stopped
                (Error "No results from geocoder. Try a more precise address."))
    | Some g => mret (Continue g)
    end.

(** The search for imagery with the panorama preference of the sidebar:
    a first search for a panorama and, when that gives nothing usable, a
    second one for any photo. *)
Definition find_imagery (lat lon : R) (token : option string) (pano_first : bool)
    : M (list notice * (json * json)) :=
  if pano_first then
    r ← mapillary_find_best fe P lat lon token default_radii true;
    found ← (if truthy r.1 then
               p ← lift (py_get (if truthy r.2 then r.2 else JObj ∅) "is_pano" JNull);
               mret (truthy p)
             else mret false);
    if found : bool then mret ([Success "Panoramic image found."], r)
    else
      r' ← mapillary_find_best fe P lat lon token default_radii false;
      mret ([Info "No panoramic image nearby — showing the closest available photo."],
            r')
  else
    r ← mapillary_find_best fe P lat lon token default_radii false;
    mret ([], r).

(** The check of the search result and the values read from the record:
    [static_url], [is_pano], [date_str] and [pano_url]. *)
Definition imagery_urls (thumb meta : json) : result (page view) :=
  if negb (truthy thumb) || negb (is_object meta) then
    mret (Stopped (Error "No Mapillary imagery found near this point."))
  else
    a ← py_get meta "thumb_1024_url" JNull;
    let static_url := if truthy a then a else thumb in
    p ← py_get meta "is_pano" JNull;
    c ← py_get meta "captured_at" (JStr "");
    let date_str := _fmt_date utc_date iso_date py_str c in
    if truthy p then
      b ← py_get meta "thumb_2048_url" JNull;
      mret (Continue (View meta static_url true date_str
                        (Some (if truthy b then b else static_url))))
    else mret (Continue (View meta static_url false date_str None)).

(** The search and the check, with the values read from the record,
    without the downloads. After the check [meta] is a dict, so the reads
    of lines 255-259 cannot raise and are taken before the download of
    line 249. *)
Definition imagery_section (lat lon : R) (token : option string) (pano_first : bool)
    : M (list notice * page view) :=
  f ← find_imagery lat lon token pano_first;
  v ← lift (imagery_urls f.2.1 f.2.2);
  mret (f.1, v).

(** [requests.get(u, timeout=t)] for a value [u] read from the record:
    the library takes [str(u)] for a value that is not a string. *)
Definition image_request (u : json) (t : Z) : request :=
  {| url := match u with JStr s => s | _ => py_str u end;
     params := [];
     headers := [];
     timeout := t |}.

(** Lines 248-253: the download and the display of the static preview. *)
Definition show_static (static_url : json) : M (list notice) :=
  try_except_as
    (img ← requests_get P (image_request static_url 20);
     raise_for_status img;;
     lift (st_image img);;
     mret [])
    (λ e, mret [Warning ("Static image error: " +:+ exn_text e)]).

(** Lines 260-266: the download of the panorama and the viewer. *)
Definition show_panorama (pano_url : json) : M (list notice) :=
  try_except_as
    (pbytes ← requests_get P (image_request pano_url 30);
     raise_for_status pbytes;;
     lift (st_viewer pbytes);;
     mret [])
    (λ e, mret [Warning ("Panorama load error (showing static only): "
                         +:+ exn_text e)]).

(** Lines 247-266 for the values of a view. *)
Definition show_view (v : view) : M (list notice) :=
  a ← show_static (v_static_url v);
  b ← match v_pano_url v with
      | Some u => show_panorama u
      | None => mret []
      end;
  mret (a ++ b).

(** Lines 233-266: the imagery section with its downloads. *)
Definition imagery_display (lat lon : R) (token : option string)
    (pano_first : bool) : M (list notice * page view) :=
  d ← imagery_section lat lon token pano_first;
  match d.2 with
  | Stopped n => mret d
  | Continue v => w ← show_view v; mret (d.1 ++ w, Continue v)
  end.

(** One run of the script: the search handler when the button was
    pressed, then the display of the last result of the session. The
    outcome is the last result the session holds afterwards, the notices of
    this run and the view, if one was reached. *)
Definition script_run (search : bool) (address : string) (token : option string)
    (pano_first : bool) (last_result : option geo)
    : M (option geo * list notice * option view) :=
  s ← (if search then
         r ← on_search address token;
         match r with
         | Stopped n => mret (Stopped n)
         | Continue g => mret (Continue (Some g))
         end
       else mret (Continue last_result));
  match s with
  | Stopped n => mret (last_result, [n], None)
  | Continue None => mret (None, [], None)
  | Continue (Some g) =>
      lift (draw_location g);;
      d ← imagery_display (geo_lat g) (geo_lon g) token pano_first;
      match d.2 with
      | Stopped n => mret (Some g, d.1 ++ [n], None)
      | Continue v => mret (Some g, d.1, Some v)
      end
  end.
End Page.

(** ** Replies the resolver cannot use *)

(** A 2xx reply whose ["data"] list holds a record the ranker cannot
    read. *)
Definition unreadable (r : reply) : Prop :=
  ∃ m items it,
    r = Reply true (Some (JObj m))
    ∧ m !! "data" = Some (JArr items)
    ∧ it ∈ items
    ∧ well_formed it = false.

(** A 2xx reply whose ["data"] list holds well-formed records, one of
    them at a place whose distance from the origin cannot be computed. *)
Definition distance_fails (fe : float_errors) (lat lon : R) (r : reply) : Prop :=
  ∃ m items,
    r = Reply true (Some (JObj m))
    ∧ m !! "data" = Some (JArr items)
    ∧ forallb well_formed items = true
    ∧ forallb (readable fe lat lon) items = false.

(** A 2xx reply whose body is not an object, or whose ["data"] member is
    not a list. *)
Definition misshapen (r : reply) : Prop :=
  ∃ body,
    r = Reply true (Some body)
    ∧ (is_object body = false
       ∨ ∃ m d, body = JObj m ∧ m !! "data" = Some d ∧ ∀ l, d ≠ JArr l).

(** A sample record whose coordinates are strings. *)
Definition bad_geometry : json :=
  record [("id", JStr "104");
          ("computed_geometry",
           record [("coordinates", JArr [JStr "2.29"; JStr "48.85"])])].

(** ** Sample library behaviour *)

(** The text of "décembre 2023, midi": the second character takes the
    two bytes 195 and 169. *)
Definition accented_date : string :=
  "d" +:+ String (Ascii.ascii_of_nat 195)
            (String (Ascii.ascii_of_nat 169) "cembre 2023, midi").

(** Library calls that reject every argument, and a [str] that prints
    nothing. *)
Definition no_utc_date : R → option string := λ _, None.
Definition no_iso_date : string → option string := λ _, None.
Definition plain_str : json → string := λ _, "".

(** A text for every exception, and widgets that draw without raising. *)
Definition plain_text : exn → string := λ _, "error".
Definition drawn : geo → result () := λ _, Ok ().
Definition shown : reply → result () := λ _, Ok ().

(** A [strip] that removes nothing. *)
Definition keep_all : string → string := λ s, s.

(** ** Sample views *)

(** A panoramic record with a large thumbnail only. *)
Definition pano_large : json :=
  record [("id", JStr "105"); ("is_pano", JBool true);
          ("thumb_2048_url", JStr "https://img.example/105")].

(** The view of [flat_thumb]. *)
Definition flat_view : view :=
  View flat_thumb (JStr "https://img.example/102") false "" None.

(** The view of [pano_large]. *)
Definition pano_view : view :=
  View pano_large (JStr "https://img.example/105") true ""
    (Some (JStr "https://img.example/105")).

(** * Properties *)

(** ** The ranking order *)

Lemma dist_le_refl d : dist_le d d.
Proof. destruct d; simpl; [lra | done]. Qed.

Lemma dist_le_trans a b c : dist_le a b → dist_le b c → dist_le a c.
Proof. destruct a, b, c; simpl; try done; lra. Qed.

Lemma dist_le_total a b : dist_le a b ∨ dist_le b a.
Proof. destruct a, b; simpl; auto. destruct (Rle_dec r r0); [left | right]; lra. Qed.

Lemma dist_ltb_false a b : dist_ltb a b = false ↔ dist_le b a.
Proof.
  destruct a, b; simpl; try done.
  destruct (Rlt_dec r r0); split; intros; try done; lra.
Qed.

Lemma dist_ltb_true a b : dist_ltb a b = true → dist_le a b.
Proof.
  destruct a, b; simpl; try done.
  destruct (Rlt_dec r r0); intros; try done; lra.
Qed.

Lemma dist_eqb_eq a b : dist_eqb a b = true ↔ a = b.
Proof.
  destruct a, b; simpl; try done.
  destruct (Req_dec_T r r0); split; intros; try done; congruence.
Qed.

Lemma ranks_before_refl a : ranks_before a a.
Proof. right. split; [done | apply dist_le_refl]. Qed.

Lemma ranks_before_trans a b c :
  ranks_before a b → ranks_before b c → ranks_before a c.
Proof.
  unfold ranks_before. intros [[? ?]|[? ?]] [[? ?]|[? ?]]; try congruence.
  - left. split; congruence.
  - left. split; congruence.
  - right. split; [congruence | by eapply dist_le_trans].
Qed.

Lemma ranks_before_total a b : ranks_before a b ∨ ranks_before b a.
Proof.
  unfold ranks_before.
  destruct (e_pano a) eqn:Ha, (e_pano b) eqn:Hb; auto;
    destruct (dist_le_total (e_dist a) (e_dist b)); auto.
Qed.

Lemma key_ltb_false x y :
  key_ltb (sort_key y) (sort_key x) = false ↔ ranks_before x y.
Proof.
  unfold key_ltb, sort_key, ranks_before. simpl.
  destruct (e_pano x), (e_pano y); simpl; rewrite ?dist_ltb_false;
    split; intros; try done; auto; try tauto;
    destruct H as [[? ?]|[? ?]]; done.
Qed.

Lemma key_ltb_true x y :
  key_ltb (sort_key y) (sort_key x) = true → ranks_before y x.
Proof.
  unfold key_ltb, sort_key, ranks_before. simpl.
  destruct (e_pano x), (e_pano y); simpl; intros H; try done; auto;
    apply dist_ltb_true in H; auto.
Qed.

(** A smaller key is never tied with the larger one. *)
Lemma key_ltb_not_tied x y :
  key_ltb (sort_key y) (sort_key x) = true →
  ∀ p d, tied p d x = true → tied p d y = false.
Proof.
  unfold key_ltb, sort_key, tied. simpl. intros H p d Hx.
  apply andb_true_iff in Hx as [Hp Hd].
  apply Bool.eqb_prop in Hp. apply dist_eqb_eq in Hd. subst p d.
  destruct (e_pano x), (e_pano y); simpl in *; try done.
  - destruct (dist_eqb (e_dist x) (e_dist y)) eqn:E; [|done].
    apply dist_eqb_eq in E. rewrite E in H.
    assert (dist_ltb (e_dist y) (e_dist y) = false) as Hf
      by (apply dist_ltb_false, dist_le_refl).
    congruence.
  - destruct (dist_eqb (e_dist x) (e_dist y)) eqn:E; [|done].
    apply dist_eqb_eq in E. rewrite E in H.
    assert (dist_ltb (e_dist y) (e_dist y) = false) as Hf
      by (apply dist_ltb_false, dist_le_refl).
    congruence.
Qed.

(** ** The sort *)

Lemma insert_entry_perm x l : insert_entry x l ≡ₚ x :: l.
Proof.
  induction l as [|y l IH]; simpl; [done|].
  destruct (key_ltb _ _); [|done].
  rewrite IH. apply Permutation_swap.
Qed.

Lemma sort_ranked_perm l : sort_ranked l ≡ₚ l.
Proof.
  induction l as [|x l IH]; simpl; [done|].
  rewrite insert_entry_perm. by rewrite IH.
Qed.

Lemma insert_entry_sorted x l :
  StronglySorted ranks_before l → StronglySorted ranks_before (insert_entry x l).
Proof.
  induction 1 as [|y l Hs IH Hy]; simpl.
  - repeat constructor.
  - destruct (key_ltb _ _) eqn:E.
    + constructor; [done|].
      rewrite insert_entry_perm. constructor; [|done].
      by apply key_ltb_true.
    + apply key_ltb_false in E.
      constructor; [by constructor|].
      constructor; [done|].
      eapply Forall_impl; [exact Hy|].
      intros z Hz. by eapply ranks_before_trans.
Qed.

Lemma sort_ranked_sorted l : StronglySorted ranks_before (sort_ranked l).
Proof.
  induction l as [|x l IH]; simpl; [constructor|].
  by apply insert_entry_sorted.
Qed.

Lemma insert_entry_stable p d x l :
  List.filter (tied p d) (insert_entry x l) = List.filter (tied p d) (x :: l).
Proof.
  induction l as [|y l IH]; [done|].
  cbn [insert_entry]. destruct (key_ltb _ _) eqn:E; [|done].
  cbn [List.filter] in *. rewrite IH.
  destruct (tied p d x) eqn:Hx; [|done].
  by rewrite (key_ltb_not_tied _ _ E p d Hx).
Qed.

Lemma sort_ranked_stable p d l :
  List.filter (tied p d) (sort_ranked l) = List.filter (tied p d) l.
Proof.
  induction l as [|x l IH]; [done|].
  cbn [sort_ranked foldr]. rewrite insert_entry_stable.
  cbn [List.filter]. fold (sort_ranked l). by rewrite IH.
Qed.

(** ** Candidates as the ranker reads them *)

Lemma py_number_ok j : is_number j = true → py_number j = Ok (number_of j).
Proof. destruct j as [| [] | | | |]; done. Qed.

Lemma py_number_inv j r : py_number j = Ok r → is_number j = true ∧ r = number_of j.
Proof. destruct j as [| [] | | | |]; simpl; intros; simplify_eq; done. Qed.

Lemma falsy_field g k : truthy g = false → field g k = JNull.
Proof.
  destruct g; try done. simpl. intros H.
  apply negb_false_iff, bool_decide_eq_true in H. by subst.
Qed.

(** The arithmetic of the floats, fixed for all that follows. *)
Section Facts.
Variable fe : float_errors.

Lemma readable_well_formed lat lon it :
  readable fe lat lon it = true → well_formed it = true.
Proof. unfold readable. by intros [? _]%andb_true_iff. Qed.

(** A record without a coordinate needs no distance. *)
Lemma readable_no_coordinate lat lon it :
  well_formed it = true → coordinate it = None → readable fe lat lon it = true.
Proof. unfold readable. by intros -> ->. Qed.

Lemma forallb_readable_well_formed lat lon items :
  forallb (readable fe lat lon) items = true → forallb well_formed items = true.
Proof.
  rewrite !forallb_forall. intros H it Hit.
  eapply readable_well_formed, H, Hit.
Qed.

Lemma forallb_readable_no_coordinate lat lon items :
  forallb well_formed items = true →
  (∀ it, it ∈ items → coordinate it = None) →
  forallb (readable fe lat lon) items = true.
Proof.
  rewrite !forallb_forall. intros H Hno it Hit.
  apply readable_no_coordinate; [by apply H|].
  by apply Hno, list_elem_of_In.
Qed.

Section RankItem.
Variables lat lon : R.

Lemma rank_item_readable it :
  readable fe lat lon it = true → rank_item fe lat lon it = Ok (rank_entry lat lon it).
Proof.
  unfold readable, well_formed, rank_item, rank_entry, distance, coordinate,
    is_pano.
  destruct it as [| | | | |m]; try done. simpl.
  set (g := default JNull (m !! "computed_geometry")).
  destruct (truthy g) eqn:Hg; simpl.
  - destruct g as [| | | | |gm]; try done. simpl.
    destruct (default JNull (gm !! "coordinates")) as [| | | |[|x [|y [|]]]|];
      try done.
    simpl. intros [[Hx Hy]%andb_true_iff He%negb_true_iff]%andb_true_iff.
    rewrite (py_number_ok _ Hy), (py_number_ok _ Hx). rsimpl.
    unfold haversine_call. by rewrite He.
  - intros _. rewrite (falsy_field g "coordinates" Hg). simpl.
    by rewrite lookup_empty.
Qed.

Lemma rank_item_inv it e :
  rank_item fe lat lon it = Ok e →
  readable fe lat lon it = true ∧ e = rank_entry lat lon it.
Proof.
  intros H. cut (readable fe lat lon it = true).
  { intros Hw. split; [done|].
    rewrite (rank_item_readable _ Hw) in H. by simplify_eq. }
  revert H.
  unfold readable, well_formed, rank_item, coordinate.
  destruct it as [| | | | |m]; try done. simpl.
  set (g := default JNull (m !! "computed_geometry")).
  destruct (truthy g) eqn:Hg; simpl.
  - destruct g as [| | | | |gm]; try done. simpl.
    destruct (default JNull (gm !! "coordinates")) as [| | | |[|x [|y [|]]]|];
      try done.
    simpl. destruct (py_number y) eqn:Hy; [|done].
    destruct (py_number x) eqn:Hx; [|done].
    apply py_number_inv in Hx as [-> ->], Hy as [-> ->]. rsimpl.
    unfold haversine_call.
    by destruct (domain_error fe lat lon (number_of y) (number_of x)).
  - intros _. by rewrite (falsy_field g "coordinates" Hg).
Qed.

(** The distance to a record cannot be computed: the ranking of one
    record raises. *)
Lemma rank_item_domain_error it x y :
  well_formed it = true →
  coordinate it = Some (x, y) →
  domain_error fe lat lon (number_of y) (number_of x) = true →
  rank_item fe lat lon it = Exc ValueError.
Proof.
  unfold well_formed, rank_item, coordinate.
  destruct it as [| | | | |m]; try done. simpl.
  set (g := default JNull (m !! "computed_geometry")).
  destruct (truthy g) eqn:Hg; simpl.
  - destruct g as [| | | | |gm]; try done. simpl.
    destruct (default JNull (gm !! "coordinates")) as [| | | |[|x' [|y' [|]]]|];
      try done.
    simpl. intros [Hx Hy]%andb_true_iff [= <- <-] He.
    rewrite (py_number_ok _ Hy), (py_number_ok _ Hx). rsimpl.
    unfold haversine_call. by rewrite He.
  - intros _. by rewrite (falsy_field g "coordinates" Hg).
Qed.

Lemma mapM_rank_item_readable items :
  forallb (readable fe lat lon) items = true →
  mapM (rank_item fe lat lon) items = Ok (rank_entry lat lon <$> items).
Proof.
  induction items as [|it items IH]; [done|].
  simpl. intros [Hw Hws]%andb_true_iff.
  rewrite (rank_item_readable _ Hw). rsimpl.
  by rewrite (IH Hws).
Qed.

Lemma mapM_rank_item_inv items l :
  mapM (rank_item fe lat lon) items = Ok l →
  forallb (readable fe lat lon) items = true ∧ l = rank_entry lat lon <$> items.
Proof.
  revert l. induction items as [|it items IH]; intros l; simpl; rsimpl.
  - intros. by simplify_eq.
  - destruct (rank_item fe lat lon it) eqn:Hit; rsimpl; [|done].
    destruct (mapM (rank_item fe lat lon) items) eqn:Hm; rsimpl; [|done].
    intros. simplify_eq.
    apply rank_item_inv in Hit as [-> ->].
    destruct (IH _ eq_refl) as [-> ->]. done.
Qed.

(** On readable candidates [rank_items] does not raise and is the
    stable sort of the entries. *)
Lemma rank_items_readable items :
  forallb (readable fe lat lon) items = true →
  rank_items fe lat lon (JArr items) = Ok (rank lat lon items).
Proof.
  intros H. unfold rank_items. simpl.
  by rewrite (mapM_rank_item_readable _ H).
Qed.

Lemma rank_items_list_inv items ranked :
  rank_items fe lat lon (JArr items) = Ok ranked →
  forallb (readable fe lat lon) items = true ∧ ranked = rank lat lon items.
Proof.
  unfold rank_items. simpl.
  destruct (mapM (rank_item fe lat lon) items) eqn:Hm; rsimpl; [|done].
  intros. simplify_eq. by apply mapM_rank_item_inv in Hm as [-> ->].
Qed.

(** A truthy value other than a list cannot be ranked: iterating it
    raises or yields strings, which have no [get]. *)
Lemma rank_items_not_list items ranked :
  truthy items = true →
  rank_items fe lat lon items = Ok ranked →
  ∃ l, items = JArr l.
Proof.
  unfold rank_items. destruct items as [| | |s|l|m]; try done.
  - destruct s as [|c s]; [done|]. done.
  - by eexists.
  - simpl. intros Hm.
    destruct (map_to_list m) as [|[k v] kvs] eqn:E; [|done].
    apply map_to_list_empty_iff in E. subst.
    done.
Qed.
End RankItem.

(** ** One attempt of the resolver *)

Section Attempt.
Variable P : provider.
Variables lat lon : R.
Variable token : string.
Variable require_pano : bool.

Lemma direct_attempt tr :
  try_except (direct_try fe P lat lon token require_pano) (mret Next) tr
  = (Ok (answer fe require_pano lat lon (P tr (closeto_request token lat lon))),
     tr ++ [Get (closeto_request token lat lon)]).
Proof.
  unfold try_except, direct_try, read_items, requests_get, answer.
  unfold raise_for_status, r_json. msimpl.
  destruct (P tr _) as [|[|] [body|]]; try done.
  destruct (py_get body "data" (JArr [])) as [items|]; [|done].
  destruct (truthy items); [|done].
  destruct (rank_items fe lat lon items) as [ranked|]; [|done].
  by destruct (choose require_pano ranked) as [[]|].
Qed.

Lemma bbox_attempt radius tr :
  try_except (bbox_try fe P lat lon token require_pano radius) (mret Next) tr
  = (Ok (answer fe require_pano lat lon (P tr (bbox_request token lat lon radius))),
     tr ++ [Get (bbox_request token lat lon radius)]).
Proof.
  unfold try_except, bbox_try, read_items, requests_get, answer.
  unfold raise_for_status, r_json. msimpl.
  destruct (P tr _) as [|[|] [body|]]; try done.
  destruct (py_get body "data" (JArr [])) as [items|]; [|done].
  destruct (truthy items); [|done].
  destruct (rank_items fe lat lon items) as [ranked|]; [|done].
  by destruct (choose require_pano ranked) as [[]|].
Qed.
End Attempt.

Lemma pick_object it : is_object it = true → pick it = Ok (preview it, it).
Proof.
  destruct it; try done. intros _.
  unfold pick, preview, thumb_small, thumb_large, py_or. simpl.
  by destruct (truthy _).
Qed.

Lemma pick_inv it v : pick it = Ok v → is_object it = true ∧ v = (preview it, it).
Proof.
  intros H. destruct it; try done. split; [done|].
  rewrite pick_object in H by done. by simplify_eq.
Qed.

Lemma elem_of_rank lat lon items t :
  t ∈ rank lat lon items ↔ ∃ it, it ∈ items ∧ t = rank_entry lat lon it.
Proof.
  unfold rank. rewrite sort_ranked_perm, list_elem_of_fmap.
  split; intros (it & ? & ?); by exists it.
Qed.

Lemma well_formed_object it : well_formed it = true → is_object it = true.
Proof. unfold well_formed. by intros [[? ?]%andb_true_iff ?]%andb_true_iff. Qed.

Lemma forallb_elem_of {A} (f : A → bool) l x :
  forallb f l = true → x ∈ l → f x = true.
Proof.
  rewrite forallb_forall. intros H Hx. by apply H, list_elem_of_In.
Qed.

Lemma elem_of_filter_bool {A} (f : A → bool) l x :
  x ∈ List.filter f l ↔ x ∈ l ∧ f x = true.
Proof. rewrite !list_elem_of_In. apply filter_In. Qed.

Lemma qualifying_Some rp lat lon items it :
  qualifying rp lat lon items = Some it →
  it ∈ items ∧ (rp = true → is_pano it = true).
Proof.
  unfold qualifying. intros H.
  apply fmap_Some in H as (t & Ht & ->).
  apply head_Some_elem_of in Ht.
  destruct rp.
  - apply elem_of_filter_bool in Ht as [Ht Hp].
    apply elem_of_rank in Ht as (it & Hit & ->). done.
  - apply elem_of_rank in Ht as (it & Hit & ->). done.
Qed.

(** The selection on the ranking of well-formed candidates. *)
Lemma choose_rank rp lat lon items :
  forallb well_formed items = true →
  (rp = false → items ≠ []) →
  choose rp (rank lat lon items)
  = Ok (match qualifying rp lat lon items with
        | Some it => Return (preview it, it)
        | None => Next
        end).
Proof.
  intros Hw Hne. unfold choose.
  destruct (qualifying rp lat lon items) as [it|] eqn:Hq.
  - pose proof (qualifying_Some _ _ _ _ _ Hq) as [Hit _].
    pose proof (well_formed_object _ (forallb_elem_of _ _ _ Hw Hit)) as Ho.
    unfold qualifying in Hq. destruct rp.
    + destruct (List.filter e_pano (rank lat lon items)) as [|t ?]; [done|].
      simpl in Hq. simplify_eq. by rewrite pick_object.
    + destruct (rank lat lon items) as [|t ?]; [done|].
      simpl in Hq. simplify_eq. by rewrite pick_object.
  - unfold qualifying in Hq. destruct rp.
    + by destruct (List.filter e_pano (rank lat lon items)).
    + destruct (rank lat lon items) as [|t ?] eqn:E; [|done].
      destruct items as [|it items]; [by destruct Hne|].
      assert (rank_entry lat lon it ∈ rank lat lon (it :: items)) as Hin.
      { apply elem_of_rank. exists it. split; [left|done]. }
      rewrite E in Hin. by apply elem_of_nil in Hin.
Qed.

Lemma answer_transport_failure rp lat lon r :
  transport_failure r → answer fe rp lat lon r = Next.
Proof. destruct r as [|[|] [body|]]; simpl; try done. by intros [|]. Qed.

Lemma answer_carries rp lat lon r items :
  carries fe lat lon r items →
  answer fe rp lat lon r
  = match qualifying rp lat lon items with
    | Some it => Return (preview it, it)
    | None => Next
    end.
Proof.
  intros (m & -> & Hd & Hw). unfold answer. simpl. rewrite Hd.
  destruct items as [|it items].
  - simpl. unfold qualifying, rank. simpl. by destruct rp.
  - cbn [truthy]. rewrite (rank_items_readable _ _ _ Hw). rsimpl.
    rewrite choose_rank; [done| |done].
    by eapply forallb_readable_well_formed.
Qed.

Lemma answer_miss rp lat lon r : miss fe rp lat lon r → answer fe rp lat lon r = Next.
Proof.
  intros [H|(items & Hc & Hq)].
  - by apply answer_transport_failure.
  - by rewrite (answer_carries _ _ _ _ _ Hc), Hq.
Qed.

Lemma answer_hit rp lat lon r it :
  hit fe rp lat lon r it → answer fe rp lat lon r = Return (preview it, it).
Proof. intros (items & Hc & Hq). by rewrite (answer_carries _ _ _ _ _ Hc), Hq. Qed.

(** Whatever the reply, an answer that returns holds a ranked record
    with the preview the code computes for it. *)
Lemma answer_Return rp lat lon r u it :
  answer fe rp lat lon r = Return (u, it) →
  is_object it = true ∧ u = preview it ∧ (rp = true → is_pano it = true).
Proof.
  unfold answer. destruct r as [|[|] [body|]]; try done.
  destruct (py_get body "data" (JArr [])) as [items|]; rsimpl; [|done].
  destruct (truthy items) eqn:Ht; [|done].
  destruct (rank_items fe lat lon items) as [ranked|] eqn:Hr; rsimpl; [|done].
  destruct (rank_items_not_list _ _ _ _ Ht Hr) as [l ->].
  apply rank_items_list_inv in Hr as [Hw%forallb_readable_well_formed ->].
  assert (∀ t, t ∈ rank lat lon l → ∀ v, pick (e_item t) = Ok v →
            v = (u, it) → is_object it = true ∧ u = preview it
                          ∧ (e_pano t = true → is_pano it = true)) as Hpick.
  { intros t (it' & Hit' & ->)%elem_of_rank v [Ho ->]%pick_inv ?.
    simplify_eq. done. }
  unfold choose. destruct rp.
  - destruct (List.filter e_pano (rank lat lon l)) as [|t ?] eqn:E; [done|].
    assert (t ∈ List.filter e_pano (rank lat lon l)) as Ht'
      by (rewrite E; left).
    apply elem_of_filter_bool in Ht' as [Ht' Hp].
    destruct (pick (e_item t)) as [v|] eqn:Hv; rsimpl; [|done].
    intros ?. simplify_eq.
    destruct (Hpick _ Ht' _ Hv eq_refl) as (? & ? & ?). auto.
  - destruct (rank lat lon l) as [|t ?] eqn:E; [done|].
    assert (t ∈ rank lat lon l) as Ht' by (rewrite E; left).
    rewrite <-E in Hpick.
    destruct (pick (e_item t)) as [v|] eqn:Hv; rsimpl; [|done].
    intros ?. simplify_eq.
    destruct (Hpick _ Ht' _ Hv eq_refl) as (? & ? & ?). done.
Qed.

Lemma py_get_data m d :
  m !! "data" = Some d → py_get (JObj m) "data" (JArr []) = Ok d.
Proof. unfold py_get. by intros ->. Qed.

(** ** Records whose distance cannot be computed *)

Lemma rank_item_cases lat lon it :
  well_formed it = true →
  rank_item fe lat lon it
  = if readable fe lat lon it then Ok (rank_entry lat lon it)
    else Exc ValueError.
Proof.
  intros Hw. destruct (readable fe lat lon it) eqn:Hr.
  - by apply rank_item_readable.
  - unfold readable in Hr. rewrite Hw in Hr. cbn [andb] in Hr.
    destruct (coordinate it) as [[x y]|] eqn:Hc; [|done].
    apply negb_false_iff in Hr. by eapply rank_item_domain_error.
Qed.

Lemma mapM_rank_item_fails lat lon items :
  forallb well_formed items = true →
  forallb (readable fe lat lon) items = false →
  mapM (rank_item fe lat lon) items = Exc ValueError.
Proof.
  induction items as [|it items IH]; [done|].
  cbn [forallb mapM]. intros [Hw Hws]%andb_true_iff Hr.
  rewrite (rank_item_cases _ _ _ Hw).
  destruct (readable fe lat lon it); [|done].
  cbn [andb] in Hr. rsimpl. by rewrite (IH Hws Hr).
Qed.

Lemma rank_items_fails lat lon items :
  forallb well_formed items = true →
  forallb (readable fe lat lon) items = false →
  rank_items fe lat lon (JArr items) = Exc ValueError.
Proof.
  intros Hw Hr. unfold rank_items. simpl.
  by rewrite (mapM_rank_item_fails _ _ _ Hw Hr).
Qed.

Lemma unreadable_member lat lon items it x y :
  it ∈ items →
  coordinate it = Some (x, y) →
  domain_error fe lat lon (number_of y) (number_of x) = true →
  forallb (readable fe lat lon) items = false.
Proof.
  intros Hit Hc He. apply not_true_is_false. intros Hall.
  pose proof (forallb_elem_of _ _ _ Hall Hit) as Hr.
  unfold readable in Hr. rewrite Hc, He in Hr.
  by apply andb_true_iff in Hr as [_ ?].
Qed.

Lemma answer_distance_fails rp lat lon r :
  distance_fails fe lat lon r → answer fe rp lat lon r = Next.
Proof.
  intros (m & items & -> & Hd & Hw & Hr). unfold answer.
  rewrite (py_get_data _ _ Hd). rsimpl.
  destruct items as [|it items]; [done|]. cbn [truthy].
  by rewrite (rank_items_fails _ _ _ Hw Hr).
Qed.
(** ** Growth of the trace *)

Lemma grows_ret {A} (a : A) : grows 0 (mret a).
Proof. intros tr. exists []. by rewrite app_nil_r. Qed.

Lemma grows_lift {A} (r : result A) : grows 0 (lift r).
Proof. intros tr. exists []. by rewrite app_nil_r. Qed.

Lemma grows_le {A} n k (m : M A) : (n <= k)%nat → grows n m → grows k m.
Proof. intros Hle H tr. destruct (H tr) as (evs & ? & ?). exists evs. split; [done|lia]. Qed.

Lemma grows_bind {A B} n k (m : M A) (f : A → M B) :
  grows n m → (∀ a, grows k (f a)) → grows (n + k) (m ≫= f).
Proof.
  intros Hm Hf tr. destruct (Hm tr) as (evs & Htr & Hlen).
  unfold mbind, M_bind. destruct (m tr) as [[a|e] tr1]; cbn in Htr; subst tr1.
  - destruct (Hf a (tr ++ evs)) as (evs' & -> & Hlen').
    exists (evs ++ evs'). rewrite length_app, app_assoc. split; [done|lia].
  - exists evs. split; [done|lia].
Qed.

Lemma grows_try_except {A} n k (body handler : M A) :
  grows n body → grows k handler → grows (n + k) (try_except body handler).
Proof.
  intros Hb Hh tr. destruct (Hb tr) as (evs & Htr & Hlen).
  unfold try_except. destruct (body tr) as [[a|e] tr1]; cbn in Htr; subst tr1.
  - exists evs. split; [done|lia].
  - destruct (Hh (tr ++ evs)) as (evs' & -> & Hlen').
    exists (evs ++ evs'). rewrite length_app, app_assoc. split; [done|lia].
Qed.

Lemma grows_try_except_as {A} n k (body : M A) (handler : exn → M A) :
  grows n body → (∀ e, grows k (handler e)) →
  grows (n + k) (try_except_as body handler).
Proof.
  intros Hb Hh tr. destruct (Hb tr) as (evs & Htr & Hlen).
  unfold try_except_as. destruct (body tr) as [[a|e] tr1]; cbn in Htr; subst tr1.
  - exists evs. split; [done|lia].
  - destruct (Hh e (tr ++ evs)) as (evs' & -> & Hlen').
    exists (evs ++ evs'). rewrite length_app, app_assoc. split; [done|lia].
Qed.

Lemma grows_requests_get P rq : grows 1 (requests_get P rq).
Proof.
  intros tr. exists [Get rq]. unfold requests_get.
  by destruct (P tr rq).
Qed.

Lemma grows_raise_for_status r : grows 0 (raise_for_status r).
Proof. destruct r as [|[|] ?]; [apply grows_lift|apply grows_ret|apply grows_lift]. Qed.

Lemma grows_r_json r : grows 0 (r_json r).
Proof. destruct r as [|? [?|]]; [apply grows_lift|apply grows_ret|apply grows_lift]. Qed.

(** The trace a computation leaves is at most [n] events longer. *)
Lemma grows_length {A} n (m : M A) tr :
  grows n m → (length (m tr).2 <= length tr + n)%nat.
Proof. intros H. destruct (H tr) as (evs & -> & ?). rewrite length_app. lia. Qed.

(** ** The cascade *)

Section Cascade.
Variable P : provider.
Variables lat lon : R.
Variable token : string.
Variable require_pano : bool.

#[local] Abbreviation closeto := (closeto_request token lat lon).
#[local] Abbreviation bbox := (bbox_request token lat lon).
#[local] Abbreviation run_cascade := (cascade fe P lat lon token require_pano).
#[local] Abbreviation run_search := (search fe P lat lon token require_pano).
#[local] Abbreviation bbox_gets := (bbox_gets token lat lon).
#[local] Abbreviation all_miss := (all_miss fe P lat lon token require_pano).

(** The offsets of a radius cannot be computed: the exception ends the
    cascade before the request for that radius. *)
Lemma cascade_offsets_error radius radii tr e :
  offsets_error fe lat radius = Some e →
  run_cascade (radius :: radii) tr = (Exc e, tr).
Proof.
  intros He. cbn [cascade]. unfold deg_for_meters_call. rewrite He. by msimpl.
Qed.

Lemma cascade_cons radius radii tr :
  offsets_error fe lat radius = None →
  run_cascade (radius :: radii) tr
  = match answer fe require_pano lat lon (P tr (bbox radius)) with
    | Return v => (Ok v, tr ++ [Get (bbox radius)])
    | Next => run_cascade radii (tr ++ [Get (bbox radius)])
    end.
Proof.
  intros He. cbn [cascade]. unfold deg_for_meters_call. rewrite He.
  unfold mbind at 1, M_bind at 1, lift at 1. cbn beta iota.
  unfold mbind at 1, M_bind at 1.
  rewrite bbox_attempt. by destruct (answer _ _ _ _ _).
Qed.

Lemma search_unfold radii tr :
  run_search radii tr
  = match answer fe require_pano lat lon (P tr closeto) with
    | Return v => (Ok v, tr ++ [Get closeto])
    | Next => run_cascade radii (tr ++ [Get closeto])
    end.
Proof.
  unfold search. unfold mbind at 1, M_bind at 1.
  rewrite direct_attempt. by destruct (answer _ _ _ _ _).
Qed.

Lemma cascade_exhausted radii tr :
  offsets_ok fe lat radii →
  all_miss tr radii → run_cascade radii tr = (Ok Empty, tr ++ bbox_gets radii).
Proof.
  intros Hok. revert tr. induction Hok as [|r radii Hr _ IH]; intros tr.
  - intros _. simpl. by rewrite app_nil_r.
  - intros [Hm Hrest]. rewrite cascade_cons, (answer_miss _ _ _ _ Hm) by done.
    rewrite (IH _ Hrest). simpl. by rewrite <-app_assoc.
Qed.

Lemma cascade_first_hit pre r post it tr :
  offsets_ok fe lat (pre ++ [r]) →
  all_miss tr pre →
  hit fe require_pano lat lon (P (tr ++ bbox_gets pre) (bbox r)) it →
  run_cascade (pre ++ r :: post) tr
  = (Ok (preview it, it), tr ++ bbox_gets (pre ++ [r])).
Proof.
  revert tr. induction pre as [|r0 pre IH]; intros tr.
  - intros [Hr _]%Forall_cons_1 _ Hh. cbn [bbox_gets fmap list_fmap app] in *.
    rewrite app_nil_r in Hh.
    by rewrite cascade_cons, (answer_hit _ _ _ _ _ Hh).
  - intros [Hr Hok]%Forall_cons_1 [Hm Hrest] Hh.
    cbn [bbox_gets fmap list_fmap app] in *.
    rewrite cascade_cons, (answer_miss _ _ _ _ Hm) by done.
    rewrite (IH (tr ++ [Get (bbox r0)]) Hok Hrest).
    + by rewrite <-app_assoc.
    + by rewrite <-app_assoc.
Qed.

(** Radii that miss only add their requests. *)
Lemma cascade_app_miss pre rest tr :
  offsets_ok fe lat pre →
  all_miss tr pre →
  run_cascade (pre ++ rest) tr = run_cascade rest (tr ++ bbox_gets pre).
Proof.
  intros Hok. revert tr. induction Hok as [|r pre Hr _ IH]; intros tr.
  - intros _. cbn [app bbox_gets fmap list_fmap]. by rewrite app_nil_r.
  - intros [Hm Hrest]. cbn [app].
    rewrite cascade_cons, (answer_miss _ _ _ _ Hm) by done.
    rewrite (IH _ Hrest). cbn [bbox_gets fmap list_fmap].
    by rewrite <-app_assoc.
Qed.


Lemma cascade_result radii tr u it tr' :
  run_cascade radii tr = (Ok (u, it), tr') →
  (u, it) = Empty
  ∨ (is_object it = true ∧ u = preview it
     ∧ (require_pano = true → is_pano it = true)).
Proof.
  revert tr. induction radii as [|r radii IH]; intros tr.
  - simpl. intros H. msimpl. simplify_eq. by left.
  - destruct (offsets_error fe lat r) as [e|] eqn:He.
    { by rewrite (cascade_offsets_error _ _ _ _ He). }
    rewrite cascade_cons by done.
    destruct (answer _ _ _ _ _) as [[u0 it0]|] eqn:Ha; [|apply IH].
    intros. simplify_eq. right. by eapply answer_Return.
Qed.

Lemma grows_cascade radii : grows (length radii) (run_cascade radii).
Proof.
  induction radii as [|r radii IH]; intros tr.
  - exists []. by rewrite app_nil_r.
  - destruct (offsets_error fe lat r) as [e|] eqn:He.
    { rewrite (cascade_offsets_error _ _ _ _ He). exists [].
      rewrite app_nil_r. split; [done|cbn; lia]. }
    rewrite cascade_cons by done.
    destruct (answer _ _ _ _ _).
    + exists [Get (bbox r)]. split; [done|cbn; lia].
    + destruct (IH (tr ++ [Get (bbox r)])) as (evs & -> & Hlen).
      exists (Get (bbox r) :: evs). rewrite <-app_assoc.
      split; [done|cbn; lia].
Qed.


Lemma search_result radii tr u it tr' :
  run_search radii tr = (Ok (u, it), tr') →
  (u, it) = Empty
  ∨ (is_object it = true ∧ u = preview it
     ∧ (require_pano = true → is_pano it = true)).
Proof.
  rewrite search_unfold.
  destruct (answer _ _ _ _ _) as [[u0 it0]|] eqn:Ha; [|apply cascade_result].
  intros. simplify_eq. right. by eapply answer_Return.
Qed.

Lemma grows_search radii : grows (1 + length radii) (run_search radii).
Proof.
  intros tr. rewrite search_unfold.
  destruct (answer _ _ _ _ _).
  - exists [Get closeto]. split; [done|cbn; lia].
  - destruct (grows_cascade radii (tr ++ [Get closeto])) as (evs & -> & Hlen).
    exists (Get closeto :: evs). rewrite <-app_assoc. split; [done|cbn; lia].
Qed.
End Cascade.

Lemma token_accepted s :
  String.prefix "MLY|" s = true → token_rejected (Some s) = false.
Proof. destruct s; [done|]. simpl. by intros ->. Qed.

Lemma find_best_accepted P lat lon s radii rp :
  String.prefix "MLY|" s = true →
  mapillary_find_best fe P lat lon (Some s) radii rp = search fe P lat lon s rp radii.
Proof. intros H. unfold mapillary_find_best. by rewrite token_accepted. Qed.

Lemma find_best_result P lat lon token radii rp tr u it tr' :
  mapillary_find_best fe P lat lon token radii rp tr = (Ok (u, it), tr') →
  (u, it) = Empty
  ∨ (is_object it = true ∧ u = preview it ∧ (rp = true → is_pano it = true)).
Proof.
  unfold mapillary_find_best.
  destruct (token_rejected token); [intros H; msimpl; simplify_eq; by left|].
  destruct token as [s|]; [apply search_result|].
  intros H; msimpl; simplify_eq; by left.
Qed.


Lemma grows_find_best P lat lon token radii rp :
  grows (1 + length radii) (mapillary_find_best fe P lat lon token radii rp).
Proof.
  unfold mapillary_find_best.
  destruct (token_rejected token);
    [eapply grows_le; [|apply grows_ret]; lia|].
  destruct token as [s|]; [apply grows_search|].
  eapply grows_le; [|apply grows_ret]; lia.
Qed.

(** ** The geocoder *)

Section GeocoderFacts.
Variable P : provider.
Variable float_of_str : string → option R.
Variable address : string.
Variable retries : Z.
Variable delay : R.

#[local] Abbreviation rq := (nominatim_request address).
#[local] Abbreviation reading := (geocode_reply float_of_str address).
#[local] Abbreviation failing := (geocode_failure float_of_str address).
#[local] Abbreviation loop := (geocode_loop P float_of_str address retries delay).

Lemma geocode_failure_reply r : failing r ↔ ∃ e, reading r = Exc e.
Proof.
  split.
  - intros [Ht|(data & e & -> & He)].
    + destruct r as [|[|] [data|]]; simpl in *; try by eexists.
      by destruct Ht.
    + by exists e.
  - intros [e He]. destruct r as [|[|] [data|]]; simpl in *.
    + by left.
    + right. by exists data, e.
    + left. by right.
    + left. by left.
    + left. by left.
Qed.

Lemma geocode_attempt i tr :
  try_except (geocode_try P float_of_str address)
             (geocode_except retries delay i) tr
  = match reading (P tr rq) with
    | Ok v => (Ok (Return v), tr ++ [Get rq])
    | Exc _ => geocode_except retries delay i (tr ++ [Get rq])
    end.
Proof.
  unfold try_except, geocode_try, requests_get, geocode_reply.
  unfold raise_for_status, r_json. msimpl.
  destruct (P tr _) as [|[|] [data|]]; try done.
  by destruct (geocode_read float_of_str address data).
Qed.

(** One iteration of the retry loop. *)
Lemma geocode_loop_cons i range tr :
  loop (i :: range) tr
  = match reading (P tr rq) with
    | Ok v => (Ok v, tr ++ [Get rq])
    | Exc _ =>
        if Z.of_nat i =? retries - 1 then (Ok None, tr ++ [Get rq])
        else if Rlt_dec delay 0 then (Exc ValueError, tr ++ [Get rq])
        else loop range ((tr ++ [Get rq]) ++ [Sleep delay])
    end.
Proof.
  cbn [geocode_loop]. unfold mbind at 1, M_bind at 1.
  rewrite geocode_attempt.
  destruct (reading (P tr rq)) as [v|e]; [done|].
  unfold geocode_except. destruct (Z.of_nat i =? retries - 1); [done|].
  unfold time_sleep. msimpl. by destruct (Rlt_dec delay 0).
Qed.

Lemma pauses_0 tr : tr ++ pauses address delay 0 = tr.
Proof. apply app_nil_r. Qed.

Lemma pauses_S tr k :
  ((tr ++ [Get rq]) ++ [Sleep delay]) ++ pauses address delay k
  = tr ++ pauses address delay (S k).
Proof. unfold pauses. cbn [replicate concat]. by rewrite <-!app_assoc. Qed.

(** All the attempts that are left fail: the last one gives [None]. *)
Lemma geocode_loop_exhausted m i tr :
  Z.of_nat (i + S m) = retries →
  (0 <= delay)%R →
  (∀ j, (j <= m)%nat → failing (P (tr ++ pauses address delay j) rq)) →
  loop (seq i (S m)) tr = (Ok None, tr ++ pauses address delay m ++ [Get rq]).
Proof.
  intros Hn Hd. revert i tr Hn.
  induction m as [|m IH]; intros i tr Hn Hf; rewrite <-cons_seq, geocode_loop_cons.
  - pose proof (Hf 0%nat (Nat.le_refl _)) as H0. rewrite pauses_0 in H0.
    apply geocode_failure_reply in H0 as [e ->].
    replace (Z.of_nat i =? retries - 1) with true
      by (symmetry; apply Z.eqb_eq; lia).
    done.
  - pose proof (Hf 0%nat (Nat.le_0_l _)) as H0. rewrite pauses_0 in H0.
    apply geocode_failure_reply in H0 as [e ->].
    replace (Z.of_nat i =? retries - 1) with false
      by (symmetry; apply Z.eqb_neq; lia).
    destruct (Rlt_dec delay 0); [lra|].
    rewrite (IH (S i)).
    + by rewrite app_assoc, pauses_S, <-app_assoc.
    + lia.
    + intros j Hj. rewrite pauses_S. apply Hf. lia.
Qed.

(** The attempts fail until one is answered: its reading is returned. *)
Lemma geocode_loop_answered k m i v tr :
  Z.of_nat (i + k + S m) = retries →
  (0 <= delay)%R →
  (∀ j, (j < k)%nat → failing (P (tr ++ pauses address delay j) rq)) →
  reading (P (tr ++ pauses address delay k) rq) = Ok v →
  loop (seq i (k + S m)) tr = (Ok v, tr ++ pauses address delay k ++ [Get rq]).
Proof.
  intros Hn Hd. revert i tr Hn.
  induction k as [|k IH]; intros i tr Hn Hf Hv.
  - cbn [Nat.add]. rewrite <-cons_seq, geocode_loop_cons.
    rewrite pauses_0 in Hv. by rewrite Hv.
  - cbn [Nat.add]. rewrite <-cons_seq, geocode_loop_cons.
    pose proof (Hf 0%nat (Nat.lt_0_succ _)) as H0. rewrite pauses_0 in H0.
    apply geocode_failure_reply in H0 as [e ->].
    replace (Z.of_nat i =? retries - 1) with false
      by (symmetry; apply Z.eqb_neq; lia).
    destruct (Rlt_dec delay 0); [lra|].
    rewrite (IH (S i)).
    + by rewrite app_assoc, pauses_S, <-app_assoc.
    + lia.
    + intros j Hj. rewrite pauses_S. apply Hf. lia.
    + by rewrite pauses_S.
Qed.

(** However the provider answers, the loop stops after at most as many
    requests as there are attempts left, pausing between two requests. *)
Lemma geocode_loop_bounded m i tr :
  Z.of_nat (i + S m) = retries →
  (0 <= delay)%R →
  ∃ k v, (k <= m)%nat
         ∧ loop (seq i (S m)) tr = (Ok v, tr ++ pauses address delay k ++ [Get rq]).
Proof.
  intros Hn Hd. revert i tr Hn.
  induction m as [|m IH]; intros i tr Hn; rewrite <-cons_seq, geocode_loop_cons.
  - destruct (reading (P tr rq)) as [v|e]; [by exists 0%nat, v|].
    replace (Z.of_nat i =? retries - 1) with true
      by (symmetry; apply Z.eqb_eq; lia).
    by exists 0%nat, None.
  - destruct (reading (P tr rq)) as [v|e].
    { exists 0%nat, v. split; [lia|done]. }
    replace (Z.of_nat i =? retries - 1) with false
      by (symmetry; apply Z.eqb_neq; lia).
    destruct (Rlt_dec delay 0); [lra|].
    destruct (IH (S i) ((tr ++ [Get rq]) ++ [Sleep delay]) ltac:(lia))
      as (k & v & Hk & ->).
    exists (S k), v. split; [lia|].
    by rewrite app_assoc, pauses_S, <-app_assoc.
Qed.
End GeocoderFacts.

Lemma geocode_nominatim_nonempty P f address retries delay :
  address ≠ "" →
  geocode_nominatim P f address retries delay
  = geocode_loop P f address retries delay (seq 0 (Z.to_nat retries)).
Proof.
  intros H. unfold geocode_nominatim. simpl.
  destruct (String.eqb_spec address ""); done.
Qed.

(** ** Geometry *)

Section Geometry.
#[local] Open Scope R_scope.

Lemma radians_minus x y : radians (x - y) = radians x - radians y.
Proof. unfold radians. lra. Qed.

Lemma radians_180 : radians 180 = PI.
Proof. unfold radians. lra. Qed.

Lemma cos_radians_pos lat : -90 < lat < 90 → 0 < cos (radians lat).
Proof.
  intros [Hl Hu]. pose proof PI_RGT_0 as Hpi.
  apply cos_gt_0; unfold radians; nra.
Qed.

Lemma sin_cos_sqr x : sin x * sin x + cos x * cos x = 1.
Proof. pose proof (sin2_cos2 x) as H. unfold Rsqr in H. lra. Qed.

(** The haversine term is a convex combination of two squares. *)
Lemma haversine_a_convex lat1 lon1 lat2 lon2 :
  let s := (radians lat2 + radians lat1) / 2 in
  let h := radians (lat2 - lat1) / 2 in
  let t := sin (radians (lon2 - lon1) / 2) ^ 2 in
  haversine_a lat1 lon1 lat2 lon2 = sin h ^ 2 * (1 - t) + cos s ^ 2 * t.
Proof.
  intros s h t. unfold haversine_a. fold h t.
  replace (radians lat1) with (s - h)
    by (unfold s, h; rewrite radians_minus; lra).
  replace (radians lat2) with (s + h)
    by (unfold s, h; rewrite radians_minus; lra).
  rewrite cos_minus, cos_plus.
  pose proof (sin_cos_sqr s) as Hs. pose proof (sin_cos_sqr h) as Hh.
  assert ((cos s * cos h + sin s * sin h) * (cos s * cos h - sin s * sin h)
          = cos s * cos s - sin h * sin h) as E.
  { transitivity (cos s * cos s * (cos h * cos h)
                  - sin s * sin s * (sin h * sin h)); [ring|].
    replace (cos h * cos h) with (1 - sin h * sin h) by lra.
    replace (sin s * sin s) with (1 - cos s * cos s) by lra.
    ring. }
  rewrite E. ring.
Qed.

(** [sqrt] and [asin] are applied inside their domains, so the formula
    never raises a domain error on real arguments. *)
Lemma haversine_a_range lat1 lon1 lat2 lon2 :
  0 <= haversine_a lat1 lon1 lat2 lon2 <= 1.
Proof.
  rewrite haversine_a_convex. cbv zeta.
  set (h := radians (lat2 - lat1) / 2).
  set (s := (radians lat2 + radians lat1) / 2).
  set (u := radians (lon2 - lon1) / 2).
  pose proof (sin_cos_sqr s). pose proof (sin_cos_sqr h).
  pose proof (sin_cos_sqr u).
  assert (0 <= sin h ^ 2 <= 1) by nra.
  assert (0 <= cos s ^ 2 <= 1) by nra.
  assert (0 <= sin u ^ 2 <= 1) by nra.
  nra.
Qed.

Lemma haversine_north d :
  0 <= d <= 6371000 → _haversine_m 0 0 (north_of_origin d) 0 = d.
Proof.
  intros [Hd0 Hd1]. pose proof PI_RGT_0 as Hpi. pose proof PI2_3_2 as Hpi2.
  set (x := d / (2 * 6371000)).
  assert (0 <= x <= PI / 2) as [Hx0 Hx1].
  { unfold x. lra. }
  assert (radians (north_of_origin d - 0) / 2 = x) as Hh.
  { unfold radians, north_of_origin, x. field. lra. }
  unfold _haversine_m, haversine_a.
  rewrite Hh, Rminus_diag.
  replace (radians 0 / 2) with 0 by (unfold radians; lra).
  rewrite sin_0.
  replace (sin x ^ 2 + cos (radians 0) * cos (radians (north_of_origin d)) * 0 ^ 2)
    with (sin x * sin x) by ring.
  rewrite sqrt_square by (apply sin_ge_0; lra).
  rewrite asin_sin by lra.
  unfold x. field.
Qed.
End Geometry.

(** * Properties of the specification *)

(** ** Ranking *)

Lemma dist_ltb_lt x y : (x < y)%R → dist_ltb (Fin x) (Fin y) = true.
Proof. intros H. simpl. destruct (Rlt_dec x y); [done|lra]. Qed.

Lemma dist_ltb_ge x y : (y <= x)%R → dist_ltb (Fin x) (Fin y) = false.
Proof. intros H. simpl. destruct (Rlt_dec x y); [lra|done]. Qed.

(** The sort on the example of the specification, whatever the records. *)
Lemma sort_ranked_three (a b c : json) :
  sort_ranked [(false, Fin 500, a); (true, Fin 800, b); (true, Fin 100, c)]
  = [(true, Fin 100, c); (true, Fin 800, b); (false, Fin 500, a)].
Proof.
  unfold sort_ranked. cbn [foldr insert_entry].
  unfold key_ltb, sort_key, e_pano, e_dist. cbn -[dist_ltb].
  rewrite dist_ltb_lt by lra. cbn -[dist_ltb]. done.
Qed.

Lemma rank_entry_north pano d :
  (0 <= d <= 6371000)%R →
  rank_entry 0 0 (image_north pano d) = (pano, Fin d, image_north pano d).
Proof.
  intros Hd.
  assert (is_pano (image_north pano d) = pano) as Hp by by destruct pano.
  assert (coordinate (image_north pano d)
          = Some (JNum 0, JNum (north_of_origin d))) as Hc by done.
  unfold rank_entry, distance. rewrite Hp, Hc. cbn [number_of].
  by rewrite haversine_north.
Qed.

Lemma three_images_ranked : rank 0 0 three_images = three_ranked.
Proof.
  unfold rank, three_images. cbn [fmap list_fmap].
  rewrite !rank_entry_north by lra. apply sort_ranked_three.
Qed.

(** C3. The ranking raises where the claim promises an order: when
    the candidates are well-formed and the distance from the origin to one
    of them cannot be computed, because rounding has put the haversine term
    above 1, [rank_items] ends in ValueError and orders nothing. *)
Theorem rank_items_distance_raises (lat lon : R) (items : list json)
    (it x y : json) :
  forallb well_formed items = true →
  it ∈ items →
  coordinate it = Some (x, y) →
  domain_error fe lat lon (number_of y) (number_of x) = true →
  rank_items fe lat lon (JArr items) = Exc ValueError.
Proof.
  intros Hw Hit Hc He. apply rank_items_fails; [done|].
  by eapply unreadable_member.
Qed.

(** X27. For candidates that are well-formed and whose distances can be
    computed, [rank_items] returns a rearrangement of the entries
    [(panoramic, distance, record)] that is ordered by panorama flag
    descending, then by distance ascending, and in which entries with the
    same flag and the same distance keep their input order; any two entries
    are comparable, a second call returns the same sequence, and the
    candidates non-panoramic/500, panoramic/800, panoramic/100 come out as
    panoramic/100, panoramic/800, non-panoramic/500. *)
Theorem rank_items_order (lat lon : R) (items : list json) :
  forallb (readable fe lat lon) items = true →
  (∃ ranked,
      rank_items fe lat lon (JArr items) = Ok ranked
      ∧ ranked ≡ₚ rank_entry lat lon <$> items
      ∧ StronglySorted ranks_before ranked
      ∧ (∀ p d, List.filter (tied p d) ranked
                = List.filter (tied p d) (rank_entry lat lon <$> items))
      ∧ (∀ again, rank_items fe lat lon (JArr items) = Ok again → again = ranked))
  ∧ (∀ a b : entry, ranks_before a b ∨ ranks_before b a)
  ∧ (forallb (readable fe 0 0) three_images = true →
     rank_items fe 0 0 (JArr three_images) = Ok three_ranked).
Proof.
  intros Hw. split; [|split].
  - exists (rank lat lon items). split; [by apply rank_items_readable|].
    split; [apply sort_ranked_perm|].
    split; [apply sort_ranked_sorted|].
    split; [intros p d; apply sort_ranked_stable|].
    intros again H. rewrite rank_items_readable in H by done. congruence.
  - apply ranks_before_total.
  - intros H3. rewrite rank_items_readable by done. f_equal.
    apply three_images_ranked.
Qed.

(** ** Degree offsets *)

Lemma deg_for_meters_fl_exact (lat m : R) :
  _deg_for_meters_fl (λ x, x) (λ l, cos (radians l)) lat m = _deg_for_meters lat m.
Proof. reflexivity. Qed.

(** C9, as amended. Under a rounding that keeps the order of the numbers
    it rounds, and at a latitude whose computed cosine is not negative,
    both components of [_deg_for_meters] are non-decreasing in the number
    of meters. *)
Theorem deg_for_meters_monotone (fl cos_radians : R → R) (lat m1 m2 : R) :
  monotone fl →
  (0 <= cos_radians lat)%R →
  (m1 <= m2)%R →
  ((_deg_for_meters_fl fl cos_radians lat m1).1
   <= (_deg_for_meters_fl fl cos_radians lat m2).1)%R
  ∧ ((_deg_for_meters_fl fl cos_radians lat m1).2
     <= (_deg_for_meters_fl fl cos_radians lat m2).2)%R.
Proof.
  intros Hfl Hc Hm. unfold _deg_for_meters_fl. cbn [fst snd].
  assert (fl (m1 / 111320) <= fl (m2 / 111320))%R as Hd by (apply Hfl; lra).
  split; [exact Hd|]. apply Hfl. by apply Rmult_le_compat_r.
Qed.

Lemma deg_for_meters_monotone_witness :
  ((_deg_for_meters 48 150).1 <= (_deg_for_meters 48 300).1)%R
  ∧ ((_deg_for_meters 48 150).2 <= (_deg_for_meters 48 300).2)%R.
Proof.
  rewrite <-!deg_for_meters_fl_exact.
  apply (deg_for_meters_monotone (λ x, x) (λ l, cos (radians l)) 48 150 300).
  - intros x y Hxy. exact Hxy.
  - apply Rlt_le, cos_radians_pos. lra.
  - lra.
Defined.

(** C9 fails as stated: in binary64, at latitude 48, the offsets for
    7000 meters and for the next float above 7000 are the same, so neither
    component is strictly increasing. *)
Lemma deg_for_meters_not_strict :
  ¬ strictly_increasing64 (λ m, (_deg_for_meters64 cos_48 m).1)
  ∧ ¬ strictly_increasing64 (λ m, (_deg_for_meters64 cos_48 m).2).
Proof.
  split; intros H;
    specialize (H 7000%float (PrimFloat.next_up 7000%float) eq_refl);
    discriminate H.
Qed.

(** ** Preconditions *)

(** C6. With an absent token, or one that does not start with the
    provider's prefix, [mapillary_find_best] returns [(None, None)] and
    leaves the trace as it was: no request is sent. *)
Theorem rejected_token_no_request (P : provider) (lat lon : R)
    (token : option string) (radii : list R) (require_pano : bool)
    (tr : list event) :
  token = None ∨ (∃ s, token = Some s ∧ String.prefix "MLY|" s = false) →
  mapillary_find_best fe P lat lon token radii require_pano tr = (Ok Empty, tr).
Proof.
  intros [->|(s & -> & Hs)]; [done|].
  unfold mapillary_find_best, token_rejected. rewrite Hs.
  by rewrite orb_true_r.
Qed.

(** C10. [geocode_nominatim] on the empty string returns [None] at once:
    the trace is unchanged, so no request was sent and no pause taken. *)
Theorem empty_query_no_request (P : provider) (float_of_str : string → option R)
    (retries : Z) (delay : R) (tr : list event) :
  geocode_nominatim P float_of_str "" retries delay tr = (Ok None, tr).
Proof. reflexivity. Qed.

(** ** Selection *)

Lemma rank_nonempty lat lon items : items ≠ [] → rank lat lon items ≠ [].
Proof.
  intros Hne Hr. apply Hne.
  pose proof (sort_ranked_perm (rank_entry lat lon <$> items)) as Hp.
  fold (rank lat lon items) in Hp. rewrite Hr in Hp.
  apply Permutation_nil_l in Hp. symmetry in Hp. by apply fmap_nil_inv in Hp.
Qed.

Lemma qualifying_top lat lon items :
  items ≠ [] → ∃ it, qualifying false lat lon items = Some it.
Proof.
  intros Hne. unfold qualifying.
  destruct (rank lat lon items) as [|t ?] eqn:E; [|by eexists].
  by apply rank_nonempty in E.
Qed.

Lemma qualifying_no_pano lat lon items :
  (∀ it, it ∈ items → is_pano it = false) →
  qualifying true lat lon items = None.
Proof.
  intros Hno. unfold qualifying.
  destruct (List.filter e_pano (rank lat lon items)) as [|t ?] eqn:E; [done|].
  assert (t ∈ List.filter e_pano (rank lat lon items)) as Ht by (rewrite E; left).
  apply elem_of_filter_bool in Ht as [(it & Hit & ->)%elem_of_rank Hp].
  cbn in Hp. rewrite (Hno _ Hit) in Hp. done.
Qed.

(** C1, as amended. When [mapillary_find_best] returns something other
    than [(None, None)], the preview is the small thumbnail of the returned
    record if that field is present, else whatever its large-thumbnail
    field holds; so the preview is present exactly when one of the two
    fields is. *)
Theorem find_best_preview (P : provider) (lat lon : R) (token : option string)
    (radii : list R) (require_pano : bool) (tr tr' : list event) (u it : json) :
  mapillary_find_best fe P lat lon token radii require_pano tr = (Ok (u, it), tr') →
  (u, it) ≠ Empty →
  u = (if truthy (thumb_small it) then thumb_small it else thumb_large it)
  ∧ truthy u = truthy (thumb_small it) || truthy (thumb_large it).
Proof.
  intros H Hne. apply find_best_result in H as [H|(_ & -> & _)]; [done|].
  split; [done|]. unfold preview.
  by destruct (truthy (thumb_small it)) eqn:E.
Qed.

(** ** Missing geometry *)

Lemma insert_entry_no_coordinate x panos flats :
  e_dist x = Inf →
  Forall (λ t, e_pano t = true ∧ e_dist t = Inf) panos →
  Forall (λ t, e_pano t = false ∧ e_dist t = Inf) flats →
  insert_entry x (panos ++ flats)
  = if e_pano x then x :: panos ++ flats else panos ++ x :: flats.
Proof.
  intros Hx Hp Hf. induction Hp as [|y panos [Hy Hd] _ IH].
  - cbn [app]. destruct Hf as [|y flats [Hy Hd] _]; [by destruct (e_pano x)|].
    cbn [insert_entry]. unfold key_ltb, sort_key. cbn [fst snd].
    rewrite Hx, Hy, Hd. by destruct (e_pano x).
  - cbn [app insert_entry]. unfold key_ltb, sort_key. cbn [fst snd].
    rewrite Hx, Hy, Hd. destruct (e_pano x) eqn:E; [done|].
    cbn. rewrite IH. done.
Qed.

(** Without distances the sort puts the panoramic entries first and
    keeps the input order inside both groups. *)
Lemma sort_ranked_no_coordinate l :
  Forall (λ t, e_dist t = Inf) l →
  sort_ranked l
  = List.filter e_pano l ++ List.filter (λ t, negb (e_pano t)) l.
Proof.
  induction 1 as [|x l Hx Hl IH]; [done|].
  cbn [sort_ranked foldr]. fold (sort_ranked l). rewrite IH.
  rewrite insert_entry_no_coordinate; [| done | |].
  - cbn [List.filter]. by destruct (e_pano x).
  - apply Forall_forall. intros t [Ht Hp]%elem_of_filter_bool.
    split; [done|]. by eapply Forall_forall in Hl.
  - apply Forall_forall. intros t [Ht Hp]%elem_of_filter_bool.
    split; [by apply negb_true_iff|]. by eapply Forall_forall in Hl.
Qed.

(** C7, as amended. A well-formed candidate without a coordinate gets
    the distance [Inf]; in the ranking, no candidate without a coordinate
    stands in front of one with the same panorama flag that has a
    coordinate; a list in which no candidate has a coordinate is ranked
    panoramic first, in input order otherwise; and when the direct attempt
    and the radii in front of a radius miss and the reply for that radius
    carries such a list, a search that does not require a panorama returns
    the candidate at the top of the ranking of that list, from that
    radius. *)
Theorem absent_coordinate_ranking (lat lon : R) (items : list json) :
  forallb well_formed items = true →
  (∀ it, coordinate it = None → distance lat lon it = Inf)
  ∧ (∀ front a back b,
        rank_items fe lat lon (JArr items) = Ok (front ++ a :: back) →
        coordinate (e_item a) = None →
        b ∈ back → e_pano b = e_pano a →
        coordinate (e_item b) = None)
  ∧ ((∀ it, it ∈ items → coordinate it = None) →
     rank_items fe lat lon (JArr items)
     = Ok (List.filter e_pano (rank_entry lat lon <$> items)
           ++ List.filter (λ t, negb (e_pano t)) (rank_entry lat lon <$> items)))
  ∧ (∀ P token front radius back tr,
        (∀ it, it ∈ items → coordinate it = None) →
        items ≠ [] →
        String.prefix "MLY|" token = true →
        offsets_ok fe lat (front ++ [radius]) →
        miss fe false lat lon (P tr (closeto_request token lat lon)) →
        all_miss fe P lat lon token false
          (tr ++ [Get (closeto_request token lat lon)]) front →
        carries fe lat lon
          (P (tr ++ Get (closeto_request token lat lon)
                 :: bbox_gets token lat lon front)
             (bbox_request token lat lon radius)) items →
        ∃ top ranked,
          rank_items fe lat lon (JArr items) = Ok (top :: ranked)
          ∧ coordinate (e_item top) = None
          ∧ mapillary_find_best fe P lat lon (Some token)
              (front ++ radius :: back) false tr
            = (Ok (preview (e_item top), e_item top),
               tr ++ Get (closeto_request token lat lon)
                  :: bbox_gets token lat lon (front ++ [radius]))).
Proof.
  intros Hw. split; [|split; [|split]].
  - intros it Hc. unfold distance. by rewrite Hc.
  - intros front a back b Hr Ha Hb Hp.
    apply rank_items_list_inv in Hr as [_ Hr]. symmetry in Hr.
    pose proof (sort_ranked_sorted (rank_entry lat lon <$> items)) as Hs.
    fold (rank lat lon items) in Hs.
    assert (a ∈ rank lat lon items) as (ia & _ & ->)%elem_of_rank
      by (rewrite Hr; apply elem_of_app; right; left).
    assert (b ∈ rank lat lon items) as (ib & _ & ->)%elem_of_rank
      by (rewrite Hr; apply elem_of_app; right; by right).
    rewrite Hr in Hs. apply StronglySorted_app_1_r in Hs.
    apply StronglySorted_inv in Hs as [_ Hs].
    eapply Forall_forall in Hs; [|exact Hb].
    cbn in Ha, Hp |- *. destruct Hs as [[Hs1 Hs2]|[_ Hs]].
    + cbn in Hs1, Hs2. congruence.
    + cbn in Hs. unfold distance in Hs. rewrite Ha in Hs.
      by destruct (coordinate ib) as [[x y]|].
  - intros Hno.
    rewrite rank_items_readable by by apply forallb_readable_no_coordinate.
    f_equal. apply sort_ranked_no_coordinate, Forall_forall.
    intros t (it & -> & Hit)%list_elem_of_fmap.
    cbn. unfold distance. by rewrite (Hno _ Hit).
  - intros P token front radius back tr Hno Hne Htok Hok Hmiss Hfront Hc.
    destruct (qualifying_top lat lon items Hne) as [it Hq].
    pose proof (qualifying_Some _ _ _ _ _ Hq) as [Hit _].
    pose proof Hq as Hq'. unfold qualifying in Hq'.
    destruct (rank lat lon items) as [|top ranked] eqn:Hrank; [done|].
    cbn in Hq'. simplify_eq.
    exists top, ranked. split; [|split; [by apply Hno|]].
    + rewrite rank_items_readable by by apply forallb_readable_no_coordinate.
      by rewrite Hrank.
    + rewrite find_best_accepted, search_unfold by done.
      rewrite (answer_miss _ _ _ _ Hmiss).
      rewrite (cascade_first_hit P lat lon token false front radius back
                 (e_item top)); [by rewrite <-app_assoc|done|done|].
      rewrite <-app_assoc. by exists items.
Qed.

(** ** The two phases *)

(** C8. A direct reply is dropped where the claim promises its
    candidate: when the candidates of the direct reply are well-formed and
    the distance to one of them cannot be computed, the ranking raises, the
    handler swallows the exception, and [mapillary_find_best] goes on with
    the bounding-box cascade although the reply holds a candidate that
    qualifies without a panorama being required. *)
Theorem direct_reply_dropped (P : provider) (lat lon : R) (token : string)
    (radii : list R) (tr : list event)
    (m : gmap string json) (items : list json) :
  String.prefix "MLY|" token = true →
  P tr (closeto_request token lat lon) = Reply true (Some (JObj m)) →
  m !! "data" = Some (JArr items) →
  forallb well_formed items = true →
  forallb (readable fe lat lon) items = false →
  (∃ it, it ∈ items ∧ qualifying false lat lon items = Some it)
  ∧ mapillary_find_best fe P lat lon (Some token) radii false tr
    = cascade fe P lat lon token false radii
        (tr ++ [Get (closeto_request token lat lon)]).
Proof.
  intros Htok Hrep Hd Hw Hr. split.
  - assert (items ≠ []) as Hne by by intros ->.
    destruct (qualifying_top lat lon items Hne) as [it Hq].
    exists it. split; [|done]. by eapply qualifying_Some.
  - rewrite find_best_accepted, search_unfold by done.
    rewrite (answer_distance_fails false lat lon _); [done|].
    by exists m, items.
Qed.

(** X29. The direct query is answered with candidates that are
    well-formed and whose distances can be computed. If there is at least
    one and no panorama is required, the top-ranked one is returned and the
    only request sent is the direct one. If a panorama is required and none
    of the candidates is panoramic, the result is that of the cascade run
    after the direct request, and it is either [(None, None)] or a
    panoramic record. *)
Theorem direct_attempt_short_circuit (P : provider) (lat lon : R)
    (token : string) (radii : list R) (tr : list event) (items : list json) :
  String.prefix "MLY|" token = true →
  carries fe lat lon (P tr (closeto_request token lat lon)) items →
  (items ≠ [] →
   ∃ t, head (rank lat lon items) = Some t
        ∧ e_item t ∈ items
        ∧ mapillary_find_best fe P lat lon (Some token) radii false tr
          = (Ok (preview (e_item t), e_item t),
             tr ++ [Get (closeto_request token lat lon)]))
  ∧ ((∀ it, it ∈ items → is_pano it = false) →
     mapillary_find_best fe P lat lon (Some token) radii true tr
     = cascade fe P lat lon token true radii
         (tr ++ [Get (closeto_request token lat lon)])
     ∧ ∀ u it tr',
         mapillary_find_best fe P lat lon (Some token) radii true tr
         = (Ok (u, it), tr') →
         (u, it) = Empty ∨ is_pano it = true).
Proof.
  intros Htok Hc. split.
  - intros Hne. destruct (qualifying_top lat lon items Hne) as [it Hq].
    pose proof (qualifying_Some _ _ _ _ _ Hq) as [Hit _].
    pose proof Hq as Hq'. unfold qualifying in Hq'.
    destruct (head (rank lat lon items)) as [t|]; [|done].
    cbn in Hq'. simplify_eq. exists t. split; [done|]. split; [done|].
    rewrite find_best_accepted, search_unfold by done.
    by rewrite (answer_carries _ _ _ _ _ Hc), Hq.
  - intros Hno. split.
    + rewrite find_best_accepted, search_unfold by done.
      by rewrite (answer_carries _ _ _ _ _ Hc), qualifying_no_pano.
    + intros u it tr' H.
      apply find_best_result in H as [H|(_ & _ & H)]; [by left|].
      right. by apply H.
Qed.

(** C2. A radius is skipped where the claim promises the outcome: when
    the candidates in the reply for a radius are well-formed and the
    distance to one of them cannot be computed, the ranking raises, the
    handler swallows the exception, and the cascade goes on with the next
    radius although the reply holds a qualifying candidate. *)
Theorem radius_reply_dropped (P : provider) (lat lon : R) (token : string)
    (radius : R) (rest : list R) (tr : list event)
    (m : gmap string json) (items : list json) :
  offsets_error fe lat radius = None →
  P tr (bbox_request token lat lon radius) = Reply true (Some (JObj m)) →
  m !! "data" = Some (JArr items) →
  forallb well_formed items = true →
  forallb (readable fe lat lon) items = false →
  (∃ it, it ∈ items ∧ qualifying false lat lon items = Some it)
  ∧ cascade fe P lat lon token false (radius :: rest) tr
    = cascade fe P lat lon token false rest
        (tr ++ [Get (bbox_request token lat lon radius)]).
Proof.
  intros Hok Hrep Hd Hw Hr. split.
  - assert (items ≠ []) as Hne by by intros ->.
    destruct (qualifying_top lat lon items Hne) as [it Hq].
    exists it. split; [|done]. by eapply qualifying_Some.
  - rewrite cascade_cons by done.
    rewrite (answer_distance_fails false lat lon _); [done|].
    by exists m, items.
Qed.

(** X28. The token is accepted, the offsets of the radii can be
    computed and the direct attempt misses (transport failure, or no
    qualifying candidate among candidates whose distances can be computed).
    Then the radii are queried in the order given, one bounding-box request
    each: if every radius in front of [r] misses and the reply for [r]
    holds a qualifying candidate, that candidate is returned and no later
    radius is queried; if every radius misses the result is [(None, None)]
    after one request per radius; a radius whose request meets a transport
    failure leaves the loop at the next radius, with that one request added
    to the trace. *)
Theorem cascade_first_qualifying_radius (P : provider) (lat lon : R)
    (token : string) (radii : list R) (require_pano : bool) (tr : list event) :
  String.prefix "MLY|" token = true →
  offsets_ok fe lat radii →
  miss fe require_pano lat lon (P tr (closeto_request token lat lon)) →
  let tr1 := tr ++ [Get (closeto_request token lat lon)] in
  (∀ front r back it,
      radii = front ++ r :: back →
      all_miss fe P lat lon token require_pano tr1 front →
      hit fe require_pano lat lon
        (P (tr1 ++ bbox_gets token lat lon front) (bbox_request token lat lon r))
        it →
      mapillary_find_best fe P lat lon (Some token) radii require_pano tr
      = (Ok (preview it, it), tr1 ++ bbox_gets token lat lon (front ++ [r])))
  ∧ (all_miss fe P lat lon token require_pano tr1 radii →
     mapillary_find_best fe P lat lon (Some token) radii require_pano tr
     = (Ok Empty, tr1 ++ bbox_gets token lat lon radii))
  ∧ (∀ r rest tr2,
        r ∈ radii →
        transport_failure (P tr2 (bbox_request token lat lon r)) →
        cascade fe P lat lon token require_pano (r :: rest) tr2
        = cascade fe P lat lon token require_pano rest
            (tr2 ++ [Get (bbox_request token lat lon r)])).
Proof.
  intros Htok Hok Hmiss tr1. split; [|split].
  - intros front r back it -> Hfront Hhit.
    rewrite find_best_accepted, search_unfold by done.
    rewrite (answer_miss _ _ _ _ Hmiss).
    apply cascade_first_hit; [|done|done].
    unfold offsets_ok in *. rewrite Forall_app in Hok |- *.
    destruct Hok as [Hf [Hr _]%Forall_cons_1]. split; [done|by constructor].
  - intros Hall.
    rewrite find_best_accepted, search_unfold by done.
    rewrite (answer_miss _ _ _ _ Hmiss).
    by apply cascade_exhausted.
  - intros r rest tr2 Hr Hf.
    rewrite cascade_cons, (answer_transport_failure _ _ _ _ Hf); [done|].
    unfold offsets_ok in Hok. by eapply Forall_forall in Hok.
Qed.

(** ** Retry and failure handling *)

(** C4. For a non-empty query, at least one attempt configured and a
    non-negative pause: whatever the provider does, at most [retries]
    requests are sent, with a pause of [delay] between two of them, and a
    value is returned; if every attempt meets a transport or parsing
    failure, the result is [None] after exactly [retries] requests; the
    first attempt that is answered ends the loop with what was read from it;
    a reply with an empty list of matches to the first request gives [None]
    after that single request; and the defaults are 3 attempts and a pause
    of 0.8 seconds. *)
Theorem geocode_retry_policy (P : provider) (float_of_str : string → option R)
    (address : string) (retries : Z) (delay : R) (tr : list event) :
  address ≠ "" →
  1 <= retries →
  (0 <= delay)%R →
  let n := Z.to_nat retries in
  let rq := nominatim_request address in
  let run := geocode_nominatim P float_of_str address retries delay tr in
  (∃ k v, (k < n)%nat ∧ run = (Ok v, tr ++ pauses address delay k ++ [Get rq]))
  ∧ ((∀ j, (j < n)%nat →
         geocode_failure float_of_str address (P (tr ++ pauses address delay j) rq)) →
     run = (Ok None, tr ++ pauses address delay (n - 1) ++ [Get rq]))
  ∧ (∀ k v,
        (k < n)%nat →
        (∀ j, (j < k)%nat →
           geocode_failure float_of_str address (P (tr ++ pauses address delay j) rq)) →
        geocode_reply float_of_str address (P (tr ++ pauses address delay k) rq) = Ok v →
        run = (Ok v, tr ++ pauses address delay k ++ [Get rq]))
  ∧ (P tr rq = Reply true (Some (JArr [])) → run = (Ok None, tr ++ [Get rq]))
  ∧ geocode_nominatim_default P float_of_str address
    = geocode_nominatim P float_of_str address 3 0.8%R.
Proof.
  intros Hne Hr Hd n rq run.
  assert (∃ m, n = S m) as [m Hm] by (exists (Nat.pred n); lia).
  assert (Z.of_nat (0 + S m) = retries) as Hret by lia.
  assert (run = geocode_loop P float_of_str address retries delay (seq 0 (S m)) tr)
    as Hrun.
  { unfold run. rewrite geocode_nominatim_nonempty by done. fold n. by rewrite Hm. }
  assert (∀ k v, (k < n)%nat →
            (∀ j, (j < k)%nat →
               geocode_failure float_of_str address
                 (P (tr ++ pauses address delay j) rq)) →
            geocode_reply float_of_str address
              (P (tr ++ pauses address delay k) rq) = Ok v →
            run = (Ok v, tr ++ pauses address delay k ++ [Get rq])) as Hans.
  { intros k v Hk Hf Hv. rewrite Hrun.
    replace (S m) with (k + S (m - k))%nat by lia.
    apply geocode_loop_answered; try done. lia. }
  split; [|split; [|split; [|split]]].
  - destruct (geocode_loop_bounded P float_of_str address retries delay
                m 0 tr Hret Hd) as (k & v & Hk & Hl).
    exists k, v. split; [lia|]. by rewrite Hrun.
  - intros Hf. rewrite Hrun, Hm.
    replace (S m - 1)%nat with m by lia.
    apply geocode_loop_exhausted; try done.
    intros j Hj. apply Hf. lia.
  - exact Hans.
  - intros Hrep. apply (Hans 0%nat None); [lia|intros j Hj; lia|].
    cbn [pauses replicate concat]. rewrite app_nil_r. fold rq. by rewrite Hrep.
  - reflexivity.
Qed.

Lemma geocode_retry_policy_witness :
  geocode_nominatim_default (always NoReply) no_float "Paris" []
  = (Ok None,
     [Get (nominatim_request "Paris"); Sleep 0.8;
      Get (nominatim_request "Paris"); Sleep 0.8;
      Get (nominatim_request "Paris")]).
Proof.
  assert ("Paris" ≠ "") as Hne by discriminate.
  assert (1 <= 3) as Hr by lia.
  assert (0 <= 0.8)%R as Hd by lra.
  destruct (geocode_retry_policy (always NoReply) no_float "Paris" 3 0.8 []
              Hne Hr Hd) as (_ & Hex & _ & _ & Hdef).
  rewrite Hdef. apply Hex. intros j _. left. exact I.
Defined.



(** * Further properties of the code *)

(** ** Great-circle distance and degree offsets *)

Section MoreGeometry.
#[local] Open Scope R_scope.

Lemma radians_0 : radians 0 = 0.
Proof. unfold radians. lra. Qed.

Lemma asin_nonneg x : 0 <= x <= 1 → 0 <= asin x <= PI / 2.
Proof.
  intros [H0 H1]. pose proof PI_RGT_0 as Hpi.
  destruct (asin_bound x) as [Hl Hu]. split; [|exact Hu].
  destruct (Rle_dec 0 (asin x)) as [|Hn]; [done|].
  assert (sin (asin x) < 0) by (apply sin_lt_0_var; lra).
  rewrite sin_asin in * by lra. lra.
Qed.

Lemma sqrt_unit x : 0 <= x <= 1 → 0 <= sqrt x <= 1.
Proof.
  intros [H0 H1]. split; [apply sqrt_pos|].
  rewrite <-sqrt_1. by apply sqrt_le_1_alt.
Qed.

(** X1. The distance from a point to itself is zero. *)
Theorem haversine_same_point (lat lon : R) : _haversine_m lat lon lat lon = 0.
Proof.
  unfold _haversine_m, haversine_a. rewrite !Rminus_diag, radians_0.
  replace (0 / 2) with 0 by lra. rewrite sin_0.
  replace (0 ^ 2 + cos (radians lat) * cos (radians lat) * 0 ^ 2) with 0 by ring.
  rewrite sqrt_0, asin_0. lra.
Qed.

(** X2. The distance is symmetric in its two points. *)
Theorem haversine_symmetric (lat1 lon1 lat2 lon2 : R) :
  _haversine_m lat1 lon1 lat2 lon2 = _haversine_m lat2 lon2 lat1 lon1.
Proof.
  unfold _haversine_m. f_equal. f_equal. f_equal. unfold haversine_a.
  replace (radians (lat1 - lat2) / 2) with (- (radians (lat2 - lat1) / 2))
    by (rewrite !radians_minus; lra).
  replace (radians (lon1 - lon2) / 2) with (- (radians (lon2 - lon1) / 2))
    by (rewrite !radians_minus; lra).
  rewrite !sin_neg. ring.
Qed.

(** X3. The distance is never negative and never more than half the
    circumference of a sphere of radius 6,371,000 m. *)
Theorem haversine_bounds (lat1 lon1 lat2 lon2 : R) :
  0 <= _haversine_m lat1 lon1 lat2 lon2 <= PI * 6371000.
Proof.
  unfold _haversine_m.
  pose proof (haversine_a_range lat1 lon1 lat2 lon2) as Ha.
  pose proof (asin_nonneg _ (sqrt_unit _ Ha)) as [H0 H1].
  split; nra.
Qed.

(** X4. Between two points of one meridian at most 180 degrees of
    latitude apart, the distance is the radius times the difference of the
    latitudes in radians. *)
Theorem haversine_meridian (lat1 lat2 lon : R) :
  lat1 <= lat2 <= lat1 + 180 →
  _haversine_m lat1 lon lat2 lon = 6371000 * radians (lat2 - lat1).
Proof.
  intros [Hl Hu]. pose proof PI_RGT_0 as Hpi.
  set (x := radians (lat2 - lat1) / 2).
  assert (0 <= x <= PI / 2) as [Hx0 Hx1].
  { unfold x, radians. split; nra. }
  unfold _haversine_m, haversine_a. fold x.
  rewrite Rminus_diag, radians_0.
  replace (0 / 2) with 0 by lra. rewrite sin_0.
  replace (sin x ^ 2 + cos (radians lat1) * cos (radians lat2) * 0 ^ 2)
    with (sin x * sin x) by ring.
  rewrite sqrt_square by (apply sin_ge_0; lra).
  rewrite asin_sin by lra.
  unfold x. lra.
Qed.

Lemma haversine_meridian_witness :
  _haversine_m 10 20 55 20 = 6371000 * radians (55 - 10).
Proof. apply (haversine_meridian 10 55 20). lra. Defined.

(** X5. For a non-negative number of meters the longitude offset is, in
    absolute value, at most the latitude offset, whatever the latitude. *)
Theorem deg_for_meters_lon_le_lat (lat meters : R) :
  0 <= meters →
  Rabs (_deg_for_meters lat meters).2 <= (_deg_for_meters lat meters).1.
Proof.
  intros Hm. unfold _deg_for_meters. cbn [fst snd].
  rewrite Rabs_mult. rewrite (Rabs_pos_eq (meters / 111320)) by lra.
  pose proof (COS_bound (radians lat)) as [Hl Hu].
  assert (Rabs (cos (radians lat)) <= 1) by (apply Rabs_le; lra).
  assert (0 <= meters / 111320) by lra.
  nra.
Qed.

Lemma deg_for_meters_lon_le_lat_witness :
  Rabs (_deg_for_meters 48 150).2 <= (_deg_for_meters 48 150).1.
Proof. apply (deg_for_meters_lon_le_lat 48 150). lra. Defined.

Lemma cos_radians_nonneg lat : -90 <= lat <= 90 → 0 <= cos (radians lat).
Proof.
  intros [Hl Hu]. pose proof PI_RGT_0 as Hpi.
  apply cos_ge_0; unfold radians; nra.
Qed.

(** X6. For a latitude between -90 and 90 degrees, the bounding box of a
    non-negative radius contains the origin, and the box of a larger radius
    contains the box of a smaller one. *)
Theorem bbox_nested (token : string) (lat lon r1 r2 : R) :
  -90 <= lat <= 90 →
  0 <= r1 <= r2 →
  ∃ w1 s1 e1 n1 w2 s2 e2 n2,
    ("bbox", PFloats [w1; s1; e1; n1]) ∈ params (bbox_request token lat lon r1)
    ∧ ("bbox", PFloats [w2; s2; e2; n2]) ∈ params (bbox_request token lat lon r2)
    ∧ (w2 <= w1 ∧ w1 <= lon ∧ lon <= e1 ∧ e1 <= e2)
    ∧ (s2 <= s1 ∧ s1 <= lat ∧ lat <= n1 ∧ n1 <= n2).
Proof.
  intros Hlat [H0 H12]. pose proof (cos_radians_nonneg lat Hlat) as Hc.
  unfold bbox_request, _deg_for_meters. cbn [params].
  do 8 eexists. split; [|split; [|split]].
  - do 3 right. left.
  - do 3 right. left.
  - assert (0 <= r1 / 111320 <= r2 / 111320) by lra. nra.
  - lra.
Qed.

Lemma bbox_nested_witness :
  ∃ w1 s1 e1 n1 w2 s2 e2 n2,
    ("bbox", PFloats [w1; s1; e1; n1]) ∈ params (bbox_request "MLY|t" 48 2 150)
    ∧ ("bbox", PFloats [w2; s2; e2; n2]) ∈ params (bbox_request "MLY|t" 48 2 300)
    ∧ (w2 <= w1 ∧ w1 <= 2 ∧ 2 <= e1 ∧ e1 <= e2)
    ∧ (s2 <= s1 ∧ s1 <= 48 ∧ 48 <= n1 ∧ n1 <= n2).
Proof. apply (bbox_nested "MLY|t" 48 2 150 300); lra. Defined.
End MoreGeometry.

(** ** What the resolver does with a reply *)

Lemma rank_items_unreadable lat lon items it :
  it ∈ items → well_formed it = false →
  ∃ e, rank_items fe lat lon (JArr items) = Exc e.
Proof.
  intros Hit Hw.
  destruct (rank_items fe lat lon (JArr items)) as [ranked|e] eqn:E; [|by exists e].
  apply rank_items_list_inv in E as [Hall%forallb_readable_well_formed _].
  rewrite (forallb_elem_of _ _ _ Hall Hit) in Hw. done.
Qed.

Lemma answer_unreadable rp lat lon r : unreadable r → answer fe rp lat lon r = Next.
Proof.
  intros (m & items & it & -> & Hd & Hit & Hw). unfold answer.
  rewrite (py_get_data _ _ Hd). msimpl.
  destruct items as [|x items]; [by apply elem_of_nil in Hit|].
  cbn [truthy].
  by destruct (rank_items_unreadable lat lon _ _ Hit Hw) as [e ->].
Qed.

Lemma answer_misshapen rp lat lon r : misshapen r → answer fe rp lat lon r = Next.
Proof.
  intros (body & -> & [Hb|(m & d & -> & Hd & Hl)]); unfold answer.
  - by destruct body.
  - rewrite (py_get_data _ _ Hd). msimpl.
    destruct (truthy d) eqn:Ht; [|done].
    destruct (rank_items fe lat lon d) as [ranked|e] eqn:E; [|done].
    destruct (rank_items_not_list _ _ _ _ Ht E) as [l ->]. by destruct (Hl l).
Qed.

(** X7. One record that cannot be read makes the resolver drop the whole
    reply, readable records included: after such a reply to the direct
    request the search goes on with the cascade, and after such a reply for
    a radius whose offsets can be computed it goes on with the next
    radius. *)
Theorem unreadable_record_discards_reply (P : provider) (lat lon : R)
    (token : string) (radii : list R) (require_pano : bool) (tr : list event) :
  String.prefix "MLY|" token = true →
  (unreadable (P tr (closeto_request token lat lon)) →
   mapillary_find_best fe P lat lon (Some token) radii require_pano tr
   = cascade fe P lat lon token require_pano radii
       (tr ++ [Get (closeto_request token lat lon)]))
  ∧ (∀ r rest,
        offsets_error fe lat r = None →
        unreadable (P tr (bbox_request token lat lon r)) →
        cascade fe P lat lon token require_pano (r :: rest) tr
        = cascade fe P lat lon token require_pano rest
            (tr ++ [Get (bbox_request token lat lon r)])).
Proof.
  intros Htok. split.
  - intros Hu. rewrite find_best_accepted, search_unfold by done.
    by rewrite (answer_unreadable _ _ _ _ Hu).
  - intros r rest Hok Hu.
    by rewrite cascade_cons, (answer_unreadable _ _ _ _ Hu).
Qed.

(** X8. A 2xx reply whose body is not a JSON object, or whose ["data"]
    is not a list, is passed over in the same way. *)
Theorem misshapen_body_discards_reply (P : provider) (lat lon : R)
    (token : string) (radii : list R) (require_pano : bool) (tr : list event) :
  String.prefix "MLY|" token = true →
  (misshapen (P tr (closeto_request token lat lon)) →
   mapillary_find_best fe P lat lon (Some token) radii require_pano tr
   = cascade fe P lat lon token require_pano radii
       (tr ++ [Get (closeto_request token lat lon)]))
  ∧ (∀ r rest,
        offsets_error fe lat r = None →
        misshapen (P tr (bbox_request token lat lon r)) →
        cascade fe P lat lon token require_pano (r :: rest) tr
        = cascade fe P lat lon token require_pano rest
            (tr ++ [Get (bbox_request token lat lon r)])).
Proof.
  intros Htok. split.
  - intros Hu. rewrite find_best_accepted, search_unfold by done.
    by rewrite (answer_misshapen _ _ _ _ Hu).
  - intros r rest Hok Hu.
    by rewrite cascade_cons, (answer_misshapen _ _ _ _ Hu).
Qed.

(** ** Which record is returned *)

Lemma filter_sorted {A} (Rel : A → A → Prop) (f : A → bool) l :
  StronglySorted Rel l → StronglySorted Rel (List.filter f l).
Proof.
  induction 1 as [|x l Hs IH Hx]; cbn [List.filter]; [constructor|].
  destruct (f x); [|done]. constructor; [done|].
  apply Forall_forall. intros y [Hy _]%elem_of_filter_bool.
  by eapply Forall_forall in Hx.
Qed.

(** The head of a sorted list stands in front of every element. *)
Lemma sorted_head_first (l : list entry) t x :
  StronglySorted ranks_before l → head l = Some t → x ∈ l → ranks_before t x.
Proof.
  intros Hs Hh Hx. destruct l as [|t' l]; [done|]. cbn in Hh. simplify_eq.
  apply StronglySorted_inv in Hs as [_ Hall].
  apply elem_of_cons in Hx as [->|Hx]; [apply ranks_before_refl|].
  by eapply Forall_forall in Hall.
Qed.

Lemma rank_sorted lat lon items : StronglySorted ranks_before (rank lat lon items).
Proof. apply sort_ranked_sorted. Qed.

(** The qualifying record stands in front of every record it competes
    with. *)
Lemma qualifying_first rp lat lon items it o :
  qualifying rp lat lon items = Some it →
  o ∈ items →
  (rp = true → is_pano o = true) →
  ranks_before (rank_entry lat lon it) (rank_entry lat lon o).
Proof.
  unfold qualifying. intros Hq Ho Hp.
  apply fmap_Some in Hq as (t & Ht & ->).
  assert (rank_entry lat lon o ∈ rank lat lon items) as Hin
    by (apply elem_of_rank; by exists o).
  destruct rp.
  - assert (t ∈ List.filter e_pano (rank lat lon items)) as Hm
      by by apply head_Some_elem_of.
    apply elem_of_filter_bool in Hm as [(it & _ & ->)%elem_of_rank _].
    eapply sorted_head_first; [apply filter_sorted, rank_sorted|exact Ht|].
    apply elem_of_filter_bool. split; [done|]. by apply Hp.
  - assert (t ∈ rank lat lon items) as (it & _ & ->)%elem_of_rank
      by by apply head_Some_elem_of.
    eapply sorted_head_first; [apply rank_sorted|exact Ht|done].
Qed.

(** X9. When no panorama is required and the direct reply carries at
    least one candidate, all candidates being well-formed and at distances
    that can be computed, the record returned is one of them; it is
    panoramic as soon as any candidate is, and no candidate with the same
    panorama flag is nearer to the origin. *)
Theorem returned_prefers_panorama (P : provider) (lat lon : R) (token : string)
    (radii : list R) (tr : list event) (items : list json) :
  String.prefix "MLY|" token = true →
  carries fe lat lon (P tr (closeto_request token lat lon)) items →
  items ≠ [] →
  ∃ it,
    mapillary_find_best fe P lat lon (Some token) radii false tr
    = (Ok (preview it, it), tr ++ [Get (closeto_request token lat lon)])
    ∧ it ∈ items
    ∧ (∀ o, o ∈ items → is_pano o = true → is_pano it = true)
    ∧ (∀ o, o ∈ items → is_pano o = is_pano it →
         dist_le (distance lat lon it) (distance lat lon o)).
Proof.
  intros Htok Hc Hne. destruct (qualifying_top lat lon items Hne) as [it Hq].
  pose proof (qualifying_Some _ _ _ _ _ Hq) as [Hit _].
  exists it. split; [|split; [done|split]].
  - rewrite find_best_accepted, search_unfold by done.
    by rewrite (answer_carries _ _ _ _ _ Hc), Hq.
  - intros o Ho Hp.
    destruct (qualifying_first _ _ _ _ _ o Hq Ho) as [[H _]|[H _]]; [done|done|].
    cbn in H. congruence.
  - intros o Ho Hp.
    destruct (qualifying_first _ _ _ _ _ o Hq Ho) as [[H1 H2]|[_ H]]; [done| |done].
    cbn in H1, H2. congruence.
Qed.

(** X10. When a panorama is required and the direct reply carries a
    panoramic candidate, all candidates being well-formed and at distances
    that can be computed, the record returned is a panoramic candidate of
    that reply and no panoramic candidate of it is nearer to the origin. *)
Theorem returned_nearest_panorama (P : provider) (lat lon : R) (token : string)
    (radii : list R) (tr : list event) (items : list json) (p : json) :
  String.prefix "MLY|" token = true →
  carries fe lat lon (P tr (closeto_request token lat lon)) items →
  p ∈ items → is_pano p = true →
  ∃ it,
    mapillary_find_best fe P lat lon (Some token) radii true tr
    = (Ok (preview it, it), tr ++ [Get (closeto_request token lat lon)])
    ∧ it ∈ items
    ∧ is_pano it = true
    ∧ (∀ o, o ∈ items → is_pano o = true →
         dist_le (distance lat lon it) (distance lat lon o)).
Proof.
  intros Htok Hc Hp Hpano.
  destruct (qualifying true lat lon items) as [it|] eqn:Hq.
  - pose proof (qualifying_Some _ _ _ _ _ Hq) as [Hit Hip].
    exists it. split; [|split; [done|split; [by apply Hip|]]].
    + rewrite find_best_accepted, search_unfold by done.
      by rewrite (answer_carries _ _ _ _ _ Hc), Hq.
    + intros o Ho Hop.
      destruct (qualifying_first _ _ _ _ _ o Hq Ho) as [[_ H]|[_ H]];
        [done| |done].
      cbn in H. congruence.
  - exfalso. unfold qualifying in Hq.
    destruct (List.filter e_pano (rank lat lon items)) as [|t ?] eqn:E; [|done].
    assert (rank_entry lat lon p ∈ List.filter e_pano (rank lat lon items)) as Hin.
    { apply elem_of_filter_bool. split; [|done]. apply elem_of_rank. by exists p. }
    rewrite E in Hin. by apply elem_of_nil in Hin.
Qed.

(** ** The requests of a search *)

Lemma answer_Return_mem rp lat lon r u it :
  answer fe rp lat lon r = Return (u, it) →
  ∃ m l, r = Reply true (Some (JObj m)) ∧ m !! "data" = Some (JArr l) ∧ it ∈ l.
Proof.
  unfold answer. destruct r as [|[|] [body|]]; try done.
  destruct body as [| | | | |m]; try done. unfold py_get. msimpl.
  destruct (m !! "data") as [d|] eqn:Hd; [|done]. cbn.
  destruct (truthy d) eqn:Ht; [|done].
  destruct (rank_items fe lat lon d) as [ranked|] eqn:Hr; [|done].
  destruct (rank_items_not_list _ _ _ _ Ht Hr) as [l ->].
  apply rank_items_list_inv in Hr as [Hw ->].
  intros Hc. exists m, l. split; [done|]. split; [done|].
  assert (∀ t, t ∈ rank lat lon l → ∀ v, pick (e_item t) = Ok v →
            v = (u, it) → it ∈ l) as Hpick.
  { intros t (it' & Hit' & ->)%elem_of_rank v [_ ->]%pick_inv ?.
    by simplify_eq. }
  unfold choose in Hc. destruct rp.
  - destruct (List.filter e_pano (rank lat lon l)) as [|t ?] eqn:E; [done|].
    assert (t ∈ List.filter e_pano (rank lat lon l)) as Ht' by (rewrite E; left).
    apply elem_of_filter_bool in Ht' as [Ht' _].
    destruct (pick (e_item t)) as [v|] eqn:Hv; [|done].
    msimpl. simplify_eq. by eapply Hpick.
  - destruct (rank lat lon l) as [|t ?] eqn:E; [done|].
    assert (t ∈ rank lat lon l) as Ht' by (rewrite E; left).
    rewrite <-E in Hpick.
    destruct (pick (e_item t)) as [v|] eqn:Hv; [|done].
    msimpl. simplify_eq. by eapply Hpick.
Qed.

Lemma answer_Return_not_Empty rp lat lon r v :
  answer fe rp lat lon r = Return v → v ≠ Empty.
Proof.
  destruct v as [u it]. intros [Ho _]%answer_Return [= -> ->]. done.
Qed.

Section Requests.
Variable P : provider.
Variables lat lon : R.
Variable token : string.
Variable require_pano : bool.

#[local] Abbreviation the_cascade := (cascade fe P lat lon token require_pano).
#[local] Abbreviation the_gets := (bbox_gets token lat lon).

Lemma bbox_gets_cons r rs :
  the_gets (r :: rs) = Get (bbox_request token lat lon r) :: the_gets rs.
Proof. done. Qed.

(** The cascade queries an initial segment of the radii, and all of them
    before it gives up. *)
Lemma cascade_trace radii tr v tr' :
  the_cascade radii tr = (Ok v, tr') →
  ∃ k, (k <= length radii)%nat
       ∧ tr' = tr ++ the_gets (take k radii)
       ∧ (v = Empty → k = length radii).
Proof.
  revert tr. induction radii as [|r radii IH]; intros tr.
  - cbn. msimpl. intros [= <- <-]. exists 0%nat.
    split; [done|]. split; [by rewrite app_nil_r|done].
  - destruct (offsets_error fe lat r) as [e|] eqn:Hoff.
    { by rewrite (cascade_offsets_error _ _ _ _ _ _ _ _ _ Hoff). }
    rewrite cascade_cons by done.
    destruct (answer _ _ _ _ _) as [v0|] eqn:Ha.
    + intros [= <- <-]. exists 1%nat. split; [cbn; lia|].
      split; [done|]. intros He. by apply answer_Return_not_Empty in Ha.
    + intros (k & Hk & -> & He)%IH. exists (S k). split; [cbn; lia|].
      split; [|intros Hv; cbn; by rewrite He].
      cbn [take]. by rewrite bbox_gets_cons, <-app_assoc.
Qed.

(** A record the cascade returns was sent in the reply to its last
    request. *)
Lemma cascade_last_reply radii tr u it tr' :
  the_cascade radii tr = (Ok (u, it), tr') →
  (u, it) ≠ Empty →
  ∃ tr0 rq m l,
    tr' = tr0 ++ [Get rq]
    ∧ P tr0 rq = Reply true (Some (JObj m))
    ∧ m !! "data" = Some (JArr l)
    ∧ it ∈ l.
Proof.
  revert tr. induction radii as [|r radii IH]; intros tr.
  - cbn. msimpl. intros [= <- <- <-] Hne. done.
  - destruct (offsets_error fe lat r) as [e|] eqn:Hoff.
    { by rewrite (cascade_offsets_error _ _ _ _ _ _ _ _ _ Hoff). }
    rewrite cascade_cons by done.
    destruct (answer _ _ _ _ _) as [v0|] eqn:Ha; [|apply IH].
    intros [= -> <-] _. apply answer_Return_mem in Ha as (m & l & Hr & Hd & Hit).
    by exists tr, (bbox_request token lat lon r), m, l.
Qed.
End Requests.

(** X11. With an accepted token the search sends the direct request and
    then bounding-box requests for an initial segment of the radii, in
    order and nothing else; when it returns [(None, None)] it has queried
    every radius. *)
Theorem search_requests (P : provider) (lat lon : R) (token : string)
    (radii : list R) (require_pano : bool) (tr tr' : list event)
    (v : json * json) :
  String.prefix "MLY|" token = true →
  mapillary_find_best fe P lat lon (Some token) radii require_pano tr = (Ok v, tr') →
  ∃ k, (k <= length radii)%nat
       ∧ tr' = tr ++ Get (closeto_request token lat lon)
                     :: bbox_gets token lat lon (take k radii)
       ∧ (v = Empty → k = length radii).
Proof.
  intros Htok. rewrite find_best_accepted, search_unfold by done.
  destruct (answer _ _ _ _ _) as [v0|] eqn:Ha.
  - intros [= <- <-]. exists 0%nat. split; [lia|]. split; [by rewrite take_0|].
    intros He. by apply answer_Return_not_Empty in Ha.
  - intros (k & Hk & -> & He)%cascade_trace. exists k.
    split; [done|]. split; [by rewrite <-app_assoc|done].
Qed.

(** X12. A record that [mapillary_find_best] returns is one of the
    records listed under ["data"] in the reply to the last request it
    sent. *)
Theorem returned_record_from_last_reply (P : provider) (lat lon : R)
    (token : option string) (radii : list R) (require_pano : bool)
    (tr tr' : list event) (u it : json) :
  mapillary_find_best fe P lat lon token radii require_pano tr = (Ok (u, it), tr') →
  (u, it) ≠ Empty →
  ∃ tr0 rq m l,
    tr' = tr0 ++ [Get rq]
    ∧ P tr0 rq = Reply true (Some (JObj m))
    ∧ m !! "data" = Some (JArr l)
    ∧ it ∈ l.
Proof.
  unfold mapillary_find_best.
  destruct (token_rejected token); [msimpl; by intros [= <- <- <-] ?|].
  destruct token as [s|]; [|msimpl; by intros [= <- <- <-] ?].
  rewrite search_unfold.
  destruct (answer _ _ _ _ _) as [v0|] eqn:Ha; [|apply cascade_last_reply].
  intros [= -> <-] _. apply answer_Return_mem in Ha as (m & l & Hr & Hd & Hit).
  by exists tr, (closeto_request s lat lon), m, l.
Qed.

(** X13. When a panorama is required, [mapillary_find_best] returns
    [(None, None)] or a panoramic record, whatever the provider replies. *)
Theorem required_panorama_is_panoramic (P : provider) (lat lon : R)
    (token : option string) (radii : list R) (tr tr' : list event) (u it : json) :
  mapillary_find_best fe P lat lon token radii true tr = (Ok (u, it), tr') →
  (u, it) ≠ Empty →
  is_pano it = true.
Proof.
  intros H Hne. apply find_best_result in H as [H|(_ & _ & H)]; [done|].
  by apply H.
Qed.

(** X30. An exception of the degree offsets is not caught. The token is
    accepted, the direct attempt misses, the radii in front of [r] have
    offsets and miss, and the offsets for [r] raise: the exception leaves
    [mapillary_find_best] after the requests sent so far, and no later
    radius is queried. *)
Theorem offsets_error_escapes (P : provider) (lat lon : R) (token : string)
    (front : list R) (r : R) (back : list R) (require_pano : bool)
    (tr : list event) (e : exn) :
  String.prefix "MLY|" token = true →
  offsets_ok fe lat front →
  offsets_error fe lat r = Some e →
  miss fe require_pano lat lon (P tr (closeto_request token lat lon)) →
  all_miss fe P lat lon token require_pano
    (tr ++ [Get (closeto_request token lat lon)]) front →
  mapillary_find_best fe P lat lon (Some token) (front ++ r :: back)
    require_pano tr
  = (Exc e, tr ++ Get (closeto_request token lat lon)
               :: bbox_gets token lat lon front).
Proof.
  intros Htok Hok He Hmiss Hfront.
  rewrite find_best_accepted, search_unfold by done.
  rewrite (answer_miss _ _ _ _ Hmiss).
  rewrite cascade_app_miss by done.
  rewrite (cascade_offsets_error _ _ _ _ _ _ _ _ _ He).
  by rewrite <-app_assoc.
Qed.

(** ** Further behaviour of the geocoder *)

(** X14. With a retry count of zero or less no request is sent and the
    result is [None]. *)
Theorem no_attempt_without_retries (P : provider) (float_of_str : string → option R)
    (address : string) (retries : Z) (delay : R) (tr : list event) :
  retries <= 0 →
  geocode_nominatim P float_of_str address retries delay tr = (Ok None, tr).
Proof.
  intros Hr. unfold geocode_nominatim.
  destruct (negb (truthy (JStr address))); [done|].
  by replace (Z.to_nat retries) with 0%nat by lia.
Qed.

Lemma no_attempt_without_retries_witness :
  geocode_nominatim (always (Reply true (Some one_match))) no_float "Paris" 0 0.8 []
  = (Ok None, []).
Proof. apply (no_attempt_without_retries _ _ "Paris" 0 0.8%R []). lia. Defined.

(** X15. With a negative pause and at least two attempts configured, a
    failure of the first attempt makes [time.sleep] raise inside the
    handler: the exception leaves [geocode_nominatim] after that single
    request. *)
Theorem negative_delay_escapes (P : provider) (float_of_str : string → option R)
    (address : string) (retries : Z) (delay : R) (tr : list event) :
  address ≠ "" →
  2 <= retries →
  (delay < 0)%R →
  geocode_failure float_of_str address (P tr (nominatim_request address)) →
  geocode_nominatim P float_of_str address retries delay tr
  = (Exc ValueError, tr ++ [Get (nominatim_request address)]).
Proof.
  intros Hne Hr Hd Hf. rewrite geocode_nominatim_nonempty by done.
  assert (∃ m, Z.to_nat retries = S m) as [m ->]
    by (exists (Nat.pred (Z.to_nat retries)); lia).
  rewrite <-cons_seq, geocode_loop_cons.
  apply geocode_failure_reply in Hf as [e ->].
  replace (Z.of_nat 0 =? retries - 1) with false
    by (symmetry; apply Z.eqb_neq; lia).
  destruct (Rlt_dec delay 0); [done|lra].
Qed.

Lemma negative_delay_escapes_witness :
  geocode_nominatim (always (Reply false None)) no_float "Paris" 3 (-1) []
  = (Exc ValueError, [Get (nominatim_request "Paris")]).
Proof.
  apply (negative_delay_escapes (always (Reply false None)) no_float "Paris" 3
           (-1)%R []); [discriminate|lia|lra|].
  left. by left.
Defined.

Lemma geocode_read_match float_of_str address m rest la lo x y :
  m !! "lat" = Some la → py_float float_of_str la = Ok x →
  m !! "lon" = Some lo → py_float float_of_str lo = Ok y →
  geocode_read float_of_str address (JArr (JObj m :: rest))
  = Ok (Some (Geo x y (default (JStr address) (m !! "display_name")))).
Proof.
  intros Hla Hx Hlo Hy. unfold geocode_read. cbn [truthy py_first].
  msimpl. unfold py_item. rewrite Hla, Hx, Hlo, Hy. done.
Qed.

(** X16. When the first reply lists a match whose ["lat"] and ["lon"]
    convert to floats, [geocode_nominatim] returns these coordinates after
    that one request, whatever the pause; the label is the ["display_name"]
    of the match if the key is there and the query otherwise, and later
    matches are not read. *)
Theorem first_match_returned (P : provider) (float_of_str : string → option R)
    (address : string) (retries : Z) (delay : R) (tr : list event)
    (m : gmap string json) (rest : list json) (la lo : json) (x y : R) :
  address ≠ "" →
  1 <= retries →
  P tr (nominatim_request address) = Reply true (Some (JArr (JObj m :: rest))) →
  m !! "lat" = Some la → py_float float_of_str la = Ok x →
  m !! "lon" = Some lo → py_float float_of_str lo = Ok y →
  geocode_nominatim P float_of_str address retries delay tr
  = (Ok (Some (Geo x y (default (JStr address) (m !! "display_name")))),
     tr ++ [Get (nominatim_request address)]).
Proof.
  intros Hne Hr HP Hla Hx Hlo Hy. rewrite geocode_nominatim_nonempty by done.
  assert (∃ k, Z.to_nat retries = S k) as [k ->]
    by (exists (Nat.pred (Z.to_nat retries)); lia).
  rewrite <-cons_seq, geocode_loop_cons, HP. cbn [geocode_reply].
  by rewrite (geocode_read_match _ _ _ _ _ _ _ _ Hla Hx Hlo Hy).
Qed.

Lemma first_match_returned_witness :
  geocode_nominatim (always (Reply true (Some one_match))) no_float "Paris" 3 0.8 []
  = (Ok (Some (Geo 48 2 (JStr "Paris"))), [Get (nominatim_request "Paris")]).
Proof.
  assert ("Paris" ≠ "") as Hne by discriminate.
  assert (1 <= 3) as Hr by lia.
  exact (first_match_returned (always (Reply true (Some one_match))) no_float
           "Paris" 3 0.8%R []
           (list_to_map [("lat", JNum 48); ("lon", JNum 2);
                         ("display_name", JStr "Paris")])
           [] (JNum 48) (JNum 2) 48%R 2%R
           Hne Hr eq_refl eq_refl eq_refl eq_refl eq_refl).
Defined.

Lemma geocode_read_no_coordinate float_of_str address m rest :
  m !! "lat" = None ∨ m !! "lon" = None →
  ∃ e, geocode_read float_of_str address (JArr (JObj m :: rest)) = Exc e.
Proof.
  intros H. unfold geocode_read. cbn [truthy py_first]. msimpl. unfold py_item.
  destruct (m !! "lat") as [la|]; [|by eexists].
  destruct (py_float float_of_str la) as [x|]; [|by eexists].
  destruct H as [H|H]; [done|]. rewrite H. by eexists.
Qed.

(** X17. A first match that lacks ["lat"] or ["lon"] counts as a failed
    attempt, not as an answer: if every reply is of that kind, all the
    attempts are used, with the pause between them, and the result is
    [None]. *)
Theorem match_without_coordinate_retried (P : provider)
    (float_of_str : string → option R) (address : string) (retries : Z)
    (delay : R) (tr : list event) :
  address ≠ "" →
  1 <= retries →
  (0 <= delay)%R →
  (∀ j, (j < Z.to_nat retries)%nat →
     ∃ m rest,
       P (tr ++ pauses address delay j) (nominatim_request address)
       = Reply true (Some (JArr (JObj m :: rest)))
       ∧ (m !! "lat" = None ∨ m !! "lon" = None)) →
  geocode_nominatim P float_of_str address retries delay tr
  = (Ok None,
     tr ++ pauses address delay (Z.to_nat retries - 1)
        ++ [Get (nominatim_request address)]).
Proof.
  intros Hne Hr Hd Hrep. rewrite geocode_nominatim_nonempty by done.
  assert (∃ k, Z.to_nat retries = S k) as [k Hk]
    by (exists (Nat.pred (Z.to_nat retries)); lia).
  rewrite Hk. replace (S k - 1)%nat with k by lia.
  apply geocode_loop_exhausted; [lia|done|].
  intros j Hj. destruct (Hrep j ltac:(lia)) as (m & rest & -> & Hm).
  right. destruct (geocode_read_no_coordinate float_of_str address m rest Hm)
    as [e He].
  by exists (JArr (JObj m :: rest)), e.
Qed.

Lemma match_without_coordinate_retried_witness :
  geocode_nominatim
    (always (Reply true (Some (JArr [record [("display_name", JStr "Paris")]]))))
    no_float "Paris" 2 0.8 []
  = (Ok None,
     [Get (nominatim_request "Paris"); Sleep 0.8; Get (nominatim_request "Paris")]).
Proof.
  apply (match_without_coordinate_retried
           (always (Reply true (Some (JArr [record [("display_name", JStr "Paris")]]))))
           no_float "Paris" 2 0.8%R []); [discriminate|lia|lra|].
  intros j _. eexists _, _. split; [reflexivity|]. by left.
Defined.
(** ** Date formatting *)

Lemma utf8_take_split n s :
  ∃ rest, s = utf8_take n s +:+ rest ∧ utf8_boundary rest = true.
Proof.
  revert n. induction s as [|c s IH]; intros n; [by exists ""|].
  cbn [utf8_take]. destruct (utf8_continuation c) eqn:Hc.
  - destruct (IH n) as (rest & Hs & Hb). exists rest.
    split; [|done].
    change (String c s = String c (utf8_take n s +:+ rest)). by f_equal.
  - destruct n as [|n].
    + exists (String c s). split; [done|]. cbn. by rewrite Hc.
    + destruct (IH n) as (rest & Hs & Hb). exists rest.
      split; [|done].
      change (String c s = String c (utf8_take n s +:+ rest)). by f_equal.
Qed.

Lemma utf8_take_length n s :
  utf8_length (utf8_take n s) = (n `min` utf8_length s)%nat.
Proof.
  revert n. induction s as [|c s IH]; intros n; [cbn; lia|].
  cbn [utf8_take utf8_length]. destruct (utf8_continuation c) eqn:Hc.
  - cbn [utf8_length]. rewrite Hc. apply IH.
  - destruct n as [|n]; [done|].
    cbn [utf8_length]. rewrite Hc, IH. lia.
Qed.

Section FmtDateFacts.
Variable utc_date : R → option string.
Variable iso_date : string → option string.
Variable py_str : json → string.

(** X18. A timestamp in milliseconds is formatted like the same instant
    in seconds: for a number of seconds above 10^9 and up to 10^12, a
    thousand times that number gives the same date. *)
Theorem fmt_date_milliseconds (s : R) :
  (1000000000 < s <= 1000000000000)%R →
  _fmt_date utc_date iso_date py_str (JNum (1000 * s))
  = _fmt_date utc_date iso_date py_str (JNum s).
Proof.
  intros [Hl Hu]. unfold _fmt_date. cbn [truthy py_number].
  destruct (Req_dec_T (1000 * s) 0) as [|_]; [lra|].
  destruct (Req_dec_T s 0) as [|_]; [lra|]. cbn [negb].
  destruct (Rlt_dec 1000000000000 (1000 * s)); [|lra].
  destruct (Rlt_dec 1000000000000 s); [lra|].
  by replace (1000 * s / 1000)%R with s by lra.
Qed.

(** X19. For a non-empty string, the result is the date the ISO parser
    reads from it once every [Z] is replaced by [+00:00]; when the parser
    rejects it, the result is the string cut after its first ten
    characters: the string starts with the result, what follows starts a
    new character, and the result has ten characters, or as many as the
    string has if these are fewer. *)
Theorem fmt_date_string (s : string) :
  s ≠ "" →
  iso_date (replace_char char_Z "+00:00" s)
  = Some (_fmt_date utc_date iso_date py_str (JStr s))
  ∨ (iso_date (replace_char char_Z "+00:00" s) = None
     ∧ (∃ rest, s = _fmt_date utc_date iso_date py_str (JStr s) +:+ rest
                ∧ utf8_boundary rest = true)
     ∧ utf8_length (_fmt_date utc_date iso_date py_str (JStr s))
       = (10 `min` utf8_length s)%nat).
Proof.
  intros Hne. unfold _fmt_date. cbn [truthy].
  destruct (String.eqb_spec s "") as [->|_]; [done|]. cbn [negb].
  destruct (iso_date (replace_char char_Z "+00:00" s)) as [d|]; [by left|].
  right. split; [done|]. split; [apply utf8_take_split|apply utf8_take_length].
Qed.

End FmtDateFacts.

Lemma fmt_date_milliseconds_witness :
  _fmt_date no_utc_date no_iso_date plain_str (JNum (1000 * 1700000000))
  = _fmt_date no_utc_date no_iso_date plain_str (JNum 1700000000).
Proof.
  apply (fmt_date_milliseconds no_utc_date no_iso_date plain_str 1700000000).
  lra.
Defined.

Lemma fmt_date_string_witness :
  no_iso_date (replace_char char_Z "+00:00" accented_date)
  = Some (_fmt_date no_utc_date no_iso_date plain_str (JStr accented_date))
  ∨ (no_iso_date (replace_char char_Z "+00:00" accented_date) = None
     ∧ (∃ rest,
          accented_date
          = _fmt_date no_utc_date no_iso_date plain_str (JStr accented_date)
            +:+ rest
          ∧ utf8_boundary rest = true)
     ∧ utf8_length
         (_fmt_date no_utc_date no_iso_date plain_str (JStr accented_date))
       = (10 `min` utf8_length accented_date)%nat).
Proof.
  apply (fmt_date_string no_utc_date no_iso_date plain_str accented_date).
  discriminate.
Defined.

(** ** The page script *)

Lemma truthy_str s : truthy (JStr s) = true ↔ s ≠ "".
Proof.
  cbn. destruct (String.eqb_spec s ""); split; intros; done.
Qed.

Lemma token_rejected_iff token :
  token_rejected token = true
  ↔ token = None ∨ ∃ s, token = Some s ∧ String.prefix "MLY|" s = false.
Proof.
  split.
  - intros H. destruct token as [s|]; [|by left]. right. exists s.
    split; [done|].
    destruct (String.prefix "MLY|" s) eqn:E; [|done].
    rewrite (token_accepted _ E) in H. done.
  - intros [->|(s & -> & Hs)]; [done|].
    unfold token_rejected. rewrite Hs. apply orb_true_r.
Qed.

Section PageFacts.
Variable P : provider.
Variable float_of_str : string → option R.
Variable strip : string → string.
Variable utc_date : R → option string.
Variable iso_date : string → option string.
Variable py_str : json → string.
Variable exn_text : exn → string.
Variable draw_location : geo → result ().
Variable st_image : reply → result ().
Variable st_viewer : reply → result ().

#[local] Abbreviation search_handler := (on_search P float_of_str strip).
#[local] Abbreviation imagery := (find_imagery fe P).
#[local] Abbreviation urls := (imagery_urls utc_date iso_date py_str).
#[local] Abbreviation section_run :=
  (imagery_section fe P utc_date iso_date py_str).
#[local] Abbreviation display_run :=
  (imagery_display fe P utc_date iso_date py_str exn_text st_image st_viewer).
#[local] Abbreviation run :=
  (script_run fe P float_of_str strip utc_date iso_date py_str exn_text
     draw_location st_image st_viewer).

Lemma on_search_stops address token tr :
  strip address = ""
  ∨ token = None
  ∨ (∃ s, token = Some s ∧ String.prefix "MLY|" s = false) →
  ∃ n, search_handler address token tr = (Ok (Stopped n), tr).
Proof.
  intros H. unfold on_search.
  destruct (truthy (JStr (strip address))) eqn:Hs; cbn [negb]; [|by eexists].
  destruct H as [H|H]; [by apply truthy_str in Hs|].
  apply token_rejected_iff in H. rewrite H. by eexists.
Qed.

Lemma on_search_cases address token tr :
  (∃ n, search_handler address token tr = (Ok (Stopped n), tr))
  ∨ (∃ r k, (k < 3)%nat
            ∧ search_handler address token tr
              = (Ok r, tr ++ pauses (strip address) 0.8 k
                          ++ [Get (nominatim_request (strip address))])
            ∧ token_rejected token = false
            ∧ strip address ≠ "").
Proof.
  unfold on_search.
  destruct (truthy (JStr (strip address))) eqn:Hs; cbn [negb];
    [|left; by eexists].
  destruct (token_rejected token) eqn:Htok; [left; by eexists|].
  apply truthy_str in Hs. right.
  unfold geocode_nominatim_default.
  destruct (geocode_loop_bounded P float_of_str (strip address) 3 0.8 2 0 tr
              eq_refl ltac:(lra)) as (k & v & Hk & Hl).
  unfold mbind, M_bind. rewrite geocode_nominatim_nonempty by done.
  change (seq 0 (Z.to_nat 3)) with (seq 0 3). rewrite Hl.
  destruct v as [g|]; eexists _, k; (split; [lia|]); by msimpl.
Qed.


(** What a search for imagery that ends in a value hands over is
    [(None, None)] or a record with its preview; the notice is the success
    notice only with a panoramic record that has a preview. *)
Lemma find_imagery_result lat lon token pano_first tr ns u it tr' :
  imagery lat lon token pano_first tr = (Ok (ns, (u, it)), tr') →
  ((u, it) = Empty ∨ (is_object it = true ∧ u = preview it))
  ∧ (if pano_first then
       (ns = [Success "Panoramic image found."]
        ∧ truthy u = true ∧ is_object it = true ∧ is_pano it = true)
       ∨ ns = [Info "No panoramic image nearby — showing the closest available photo."]
     else ns = []).
Proof.
  unfold find_imagery. destruct pano_first.
  - unfold mbind at 1, M_bind at 1.
    destruct (mapillary_find_best fe P lat lon token default_radii true tr)
      as [[[u1 it1]|e] tr1] eqn:H1; [|done].
    apply find_best_result in H1. cbn [fst snd].
    destruct (truthy u1) eqn:Hu.
    + destruct H1 as [[= -> ->]|(Ho & -> & Hp)]; [done|].
      destruct it1 as [| | | | |m]; try done.
      specialize (Hp eq_refl). unfold is_pano, field in Hp.
      unfold py_get. msimpl.
      destruct (truthy (JObj m)) eqn:Hm.
      * rewrite Hp. intros [= <- <- <- <-].
        split; [by right|by left].
      * apply negb_false_iff, bool_decide_eq_true in Hm. subst m.
        by rewrite lookup_empty in Hp.
    + msimpl.
      destruct (mapillary_find_best fe P lat lon token default_radii false tr1)
        as [[[u2 it2]|e] tr2] eqn:H2; [|done].
      apply find_best_result in H2.
      intros [= <- <- <- <-].
      split; [destruct H2 as [|(? & ? & _)]; auto|by right].
  - msimpl.
    destruct (mapillary_find_best fe P lat lon token default_radii false tr)
      as [[[u1 it1]|e] tr1] eqn:H1; [|done].
    apply find_best_result in H1.
    intros [= <- <- <- <-].
    split; [destruct H1 as [|(? & ? & _)]; auto|done].
Qed.

Lemma grows_find_imagery lat lon token pano_first :
  grows 16 (imagery lat lon token pano_first).
Proof.
  unfold find_imagery. destruct pano_first.
  - apply (grows_bind 8 8); [apply grows_find_best|]. intros r.
    apply (grows_bind 0 8).
    + destruct (truthy r.1); [|apply grows_ret].
      apply (grows_bind 0 0); [apply grows_lift|]. intros p. apply grows_ret.
    + intros [|]; [eapply grows_le; [|apply grows_ret]; lia|].
      apply (grows_bind 8 0); [apply grows_find_best|]. intros r'.
      apply grows_ret.
  - eapply grows_le; [|apply (grows_bind 8 0); [apply grows_find_best|]];
      [lia|]. intros r. apply grows_ret.
Qed.

(** The check and the URLs, for what a search hands over. *)
Lemma imagery_urls_cases u it :
  (u, it) = Empty ∨ (is_object it = true ∧ u = preview it) →
  (truthy u = false ∧ ∃ n, urls u it = Ok (Stopped n))
  ∨ (truthy u = true
     ∧ ∃ v, urls u it = Ok (Continue v)
            ∧ v_meta v = it
            ∧ v_static_url v = preview it
            ∧ v_is_pano v = is_pano it
            ∧ v_pano_url v
              = (if is_pano it then
                   Some (if truthy (thumb_large it) then thumb_large it
                         else preview it)
                 else None)).
Proof.
  intros [[= -> ->]|[Ho ->]]; [left; split; [done|by eexists]|].
  unfold imagery_urls. rewrite Ho.
  destruct (truthy (preview it)) eqn:Hu; cbn [negb orb];
    [right; split; [done|]|left; split; [done|by eexists]].
  destruct it as [| | | | |m]; try done. unfold py_get. msimpl.
  change (default JNull (m !! "thumb_1024_url")) with (thumb_small (JObj m)).
  change (default JNull (m !! "thumb_2048_url")) with (thumb_large (JObj m)).
  change (truthy (default JNull (m !! "is_pano"))) with (is_pano (JObj m)).
  assert ((if truthy (thumb_small (JObj m)) then thumb_small (JObj m)
           else preview (JObj m)) = preview (JObj m)) as ->.
  { unfold preview. by destruct (truthy (thumb_small (JObj m))). }
  destruct (is_pano (JObj m)) eqn:Hp; eexists; (split; [done|]); by rewrite ?Hp.
Qed.

(** The imagery section is the search followed by the check. *)
Lemma imagery_section_inv lat lon token pano_first tr ns pg tr' :
  section_run lat lon token pano_first tr = (Ok (ns, pg), tr') →
  ∃ u it,
    imagery lat lon token pano_first tr = (Ok (ns, (u, it)), tr')
    ∧ urls u it = Ok pg.
Proof.
  unfold imagery_section. msimpl.
  destruct (find_imagery fe P lat lon token pano_first tr)
    as [[[ns' [u it]]|e] tr1] eqn:Hf; [|done].
  cbn [fst snd]. destruct (imagery_urls _ _ _ u it) as [pg'|e] eqn:Hu; [|done].
  intros [= <- <- <-]. by exists u, it.
Qed.

Lemma grows_imagery_section lat lon token pano_first :
  grows 16 (section_run lat lon token pano_first).
Proof.
  unfold imagery_section.
  apply (grows_bind 16 0); [apply grows_find_imagery|]. intros f.
  apply (grows_bind 0 0); [apply grows_lift|]. intros v. apply grows_ret.
Qed.

Lemma grows_show_static u :
  grows 1 (show_static P py_str exn_text st_image u).
Proof.
  unfold show_static. apply (grows_try_except_as 1 0).
  - apply (grows_bind 1 0); [apply grows_requests_get|]. intros img.
    apply (grows_bind 0 0); [apply grows_raise_for_status|]. intros _.
    apply (grows_bind 0 0); [apply grows_lift|]. intros _. apply grows_ret.
  - intros e. apply grows_ret.
Qed.

Lemma grows_show_panorama u :
  grows 1 (show_panorama P py_str exn_text st_viewer u).
Proof.
  unfold show_panorama. apply (grows_try_except_as 1 0).
  - apply (grows_bind 1 0); [apply grows_requests_get|]. intros img.
    apply (grows_bind 0 0); [apply grows_raise_for_status|]. intros _.
    apply (grows_bind 0 0); [apply grows_lift|]. intros _. apply grows_ret.
  - intros e. apply grows_ret.
Qed.

Lemma grows_show_view v :
  grows 2 (show_view P py_str exn_text st_image st_viewer v).
Proof.
  unfold show_view.
  apply (grows_bind 1 1); [apply grows_show_static|]. intros a.
  apply (grows_bind 1 0).
  - destruct (v_pano_url v); [apply grows_show_panorama|].
    eapply grows_le; [|apply grows_ret]. lia.
  - intros b. apply grows_ret.
Qed.

Lemma grows_imagery_display lat lon token pano_first :
  grows 18 (display_run lat lon token pano_first).
Proof.
  unfold imagery_display.
  apply (grows_bind 16 2); [apply grows_imagery_section|]. intros d.
  destruct d.2 as [n|v]; [eapply grows_le; [|apply grows_ret]; lia|].
  apply (grows_bind 2 0); [apply grows_show_view|]. intros w. apply grows_ret.
Qed.

(** The downloads never raise: what goes wrong in them becomes a
    notice. *)
Lemma show_view_total v tr :
  ∃ ns tr', show_view P py_str exn_text st_image st_viewer v tr = (Ok ns, tr').
Proof.
  assert (∀ u tr0, ∃ ns tr',
            show_static P py_str exn_text st_image u tr0 = (Ok ns, tr')) as Hs.
  { intros u tr0. unfold show_static, try_except_as.
    match goal with
    | |- context [match ?b with _ => _ end] => destruct b as [[ns|e] tr1]
    end; by eexists _, _. }
  assert (∀ u tr0, ∃ ns tr',
            show_panorama P py_str exn_text st_viewer u tr0 = (Ok ns, tr')) as Hp.
  { intros u tr0. unfold show_panorama, try_except_as.
    match goal with
    | |- context [match ?b with _ => _ end] => destruct b as [[ns|e] tr1]
    end; by eexists _, _. }
  unfold show_view. destruct (Hs (v_static_url v) tr) as (a & tr1 & Ha).
  unfold mbind at 1, M_bind at 1. rewrite Ha.
  destruct (v_pano_url v) as [u|].
  - destruct (Hp u tr1) as (b & tr2 & Hb).
    unfold mbind, M_bind. rewrite Hb. by eexists _, _.
  - by eexists _, _.
Qed.
End PageFacts.

Section PageTheorems.
Variable P : provider.
Variable float_of_str : string → option R.
Variable strip : string → string.
Variable utc_date : R → option string.
Variable iso_date : string → option string.
Variable py_str : json → string.
Variable exn_text : exn → string.
Variable draw_location : geo → result ().
Variable st_image : reply → result ().
Variable st_viewer : reply → result ().

(** X20. The search handler stops with a notice and sends no request
    when the address is blank after stripping, or when the token is absent
    or lacks the provider's prefix. *)
Theorem search_preconditions_stop (address : string) (token : option string)
    (tr : list event) :
  strip address = ""
  ∨ token = None
  ∨ (∃ s, token = Some s ∧ String.prefix "MLY|" s = false) →
  ∃ n, on_search P float_of_str strip address token tr = (Ok (Stopped n), tr).
Proof. apply on_search_stops. Qed.

(** X21. The search handler always ends in a value; it either sends
    nothing or sends geocoding requests for the stripped address only: at
    most three, with a pause of 0.8 seconds between two of them. *)
Theorem search_handler_requests (address : string) (token : option string)
    (tr : list event) :
  ∃ r tr',
    on_search P float_of_str strip address token tr = (Ok r, tr')
    ∧ (tr' = tr
       ∨ ∃ k, (k < 3)%nat
              ∧ tr' = tr ++ pauses (strip address) 0.8 k
                         ++ [Get (nominatim_request (strip address))]).
Proof.
  destruct (on_search_cases P float_of_str strip address token tr)
    as [[n Hn]|(r & k & Hk & Hrun & _)].
  - exists (Stopped n), tr. split; [done|by left].
  - eexists r, _. split; [done|]. right. by exists k.
Qed.

(** X22. Whatever it ends in, the imagery section with its downloads
    adds at most eighteen events to the trace: two searches of one direct
    request and seven radii each, and the downloads of the static preview
    and of the panorama. *)
Theorem imagery_display_bounded (lat lon : R) (token : option string)
    (pano_first : bool) (tr : list event) :
  ∃ evs,
    (imagery_display fe P utc_date iso_date py_str exn_text st_image st_viewer
       lat lon token pano_first tr).2
    = tr ++ evs
    ∧ (length evs <= 18)%nat.
Proof. apply grows_imagery_display. Qed.

(** X23. When the imagery section goes on to show a record, the static
    preview URL is present and is the small thumbnail of the record if that
    is present, else its large one; the panorama flag is that of the record;
    and a panorama URL is set exactly for a panoramic record, and is then
    present. *)
Theorem shown_view_has_preview (lat lon : R) (token : option string)
    (pano_first : bool) (tr tr' : list event) (ns : list notice) (v : view) :
  imagery_section fe P utc_date iso_date py_str lat lon token pano_first tr
  = (Ok (ns, Continue v), tr') →
  truthy (v_static_url v) = true
  ∧ v_static_url v = preview (v_meta v)
  ∧ v_is_pano v = is_pano (v_meta v)
  ∧ (if v_is_pano v then ∃ u, v_pano_url v = Some u ∧ truthy u = true
     else v_pano_url v = None).
Proof.
  intros (u & it & Hf & Hpg)%imagery_section_inv.
  apply find_imagery_result in Hf as [Hres _].
  destruct (imagery_urls_cases utc_date iso_date py_str u it Hres)
    as [[_ [n Hn]]|[Hu (v' & Hv & Hm & Hs & Hp & Hpu)]]; [congruence|].
  rewrite Hpg in Hv. injection Hv as <-.
  destruct Hres as [[= -> ->]|[_ Hu']]; [done|].
  rewrite Hm, Hs, Hp, Hpu, <-Hu'. split; [done|]. split; [done|]. split; [done|].
  destruct (is_pano it); [|done]. eexists. split; [done|].
  by destruct (truthy (thumb_large it)) eqn:Hl.
Qed.

(** X24. With the panorama preference on, the notice of the imagery
    section is either the success notice, and then a panoramic record is
    shown, or the notice that no panorama was found nearby. *)
Theorem success_notice_only_with_panorama (lat lon : R) (token : option string)
    (tr tr' : list event) (ns : list notice) (pg : page view) :
  imagery_section fe P utc_date iso_date py_str lat lon token true tr = (Ok (ns, pg), tr') →
  (ns = [Success "Panoramic image found."]
   ∧ ∃ v, pg = Continue v ∧ v_is_pano v = true)
  ∨ ns = [Info "No panoramic image nearby — showing the closest available photo."].
Proof.
  intros (u & it & Hf & Hpg)%imagery_section_inv.
  apply find_imagery_result in Hf as [Hres Hns].
  destruct Hns as [(-> & Hu & Ho & Hp) | ->]; [left|by right].
  split; [done|].
  destruct (imagery_urls_cases utc_date iso_date py_str u it Hres)
    as [[Hu' _]|[_ (v & Hv & _ & _ & Hvp & _)]]; [congruence|].
  rewrite Hpg in Hv. injection Hv as ->. exists v. split; [done|]. congruence.
Qed.

(** X25. A run in which the search handler stops on a blank address or
    on a rejected token sends no request, shows no imagery and leaves the
    last result of the session as it was. *)
Theorem stopped_search_keeps_session (address : string) (token : option string)
    (pano_first : bool) (last_result : option geo) (tr : list event) :
  strip address = ""
  ∨ token = None
  ∨ (∃ s, token = Some s ∧ String.prefix "MLY|" s = false) →
  ∃ n, script_run fe P float_of_str strip utc_date iso_date py_str exn_text
         draw_location st_image st_viewer true address token pano_first
         last_result tr
       = (Ok (last_result, [n], None), tr).
Proof.
  intros H. destruct (on_search_stops P float_of_str strip address token tr H)
    as [n Hn].
  exists n. unfold script_run. msimpl. by rewrite Hn.
Qed.

End PageTheorems.
(** * The statements at sample inputs *)

End Facts.

(** The distance from the sample place to the record opposite to it is
    the one that [antipode_error] cannot compute. *)
Lemma antipode_error_at :
  domain_error antipode_error far_lat far_lon antipode_lat antipode_lon = true.
Proof.
  cbn. repeat (destruct (Req_dec_T _ _) as [_|Hn]; [|by destruct Hn]). done.
Qed.

Lemma antipode_unreadable (items : list json) :
  antipode ∈ items →
  forallb (readable antipode_error far_lat far_lon) items = false.
Proof.
  intros Hin.
  apply (unreadable_member antipode_error far_lat far_lon items antipode
           (JNum antipode_lon) (JNum antipode_lat) Hin eq_refl).
  exact antipode_error_at.
Qed.

Lemma antipode_reply_fails :
  distance_fails antipode_error far_lat far_lon (data_reply [antipode]).
Proof.
  exists (list_to_map [("data", JArr [antipode])]), [antipode].
  split; [reflexivity|]. split; [reflexivity|]. split; [reflexivity|].
  apply antipode_unreadable. left.
Qed.

Lemma no_errors_offsets lat radii : offsets_ok no_errors lat radii.
Proof. apply Forall_forall. by intros. Qed.

(** ** Ranking *)

Lemma rank_items_distance_raises_witness :
  rank_items antipode_error far_lat far_lon (JArr [flat_thumb; antipode])
  = Exc ValueError.
Proof.
  apply (rank_items_distance_raises antipode_error far_lat far_lon
           [flat_thumb; antipode] antipode (JNum antipode_lon)
           (JNum antipode_lat)).
  - reflexivity.
  - right. left.
  - reflexivity.
  - exact antipode_error_at.
Defined.

Lemma rank_items_order_witness :
  forallb (readable no_errors 0 0) [flat_thumb; bare_pano; flat_here] = true
  ∧ ∃ ranked,
      rank_items no_errors 0 0 (JArr [flat_thumb; bare_pano; flat_here]) = Ok ranked
      ∧ StronglySorted ranks_before ranked.
Proof.
  split; [reflexivity|].
  destruct (rank_items_order no_errors 0 0 [flat_thumb; bare_pano; flat_here]
              eq_refl)
    as [(ranked & Hr & _ & Hs & _) _].
  exists ranked. split; [exact Hr|exact Hs].
Defined.

(** ** Preconditions and selection *)

Lemma rejected_token_no_request_witness :
  mapillary_find_best no_errors (always (data_reply [flat_thumb])) 0 0 (Some "mly|123")
    default_radii false []
  = (Ok Empty, []).
Proof.
  apply (rejected_token_no_request no_errors _ 0%R 0%R (Some "mly|123") default_radii false []).
  right. exists "mly|123". split; reflexivity.
Defined.

Lemma find_best_preview_witness :
  mapillary_find_best no_errors (always (data_reply [flat_thumb])) 0 0 (Some "MLY|t")
    default_radii false []
  = (Ok (JStr "https://img.example/102", flat_thumb),
     [Get (closeto_request "MLY|t" 0 0)])
  ∧ JStr "https://img.example/102" = thumb_small flat_thumb
  ∧ truthy (JStr "https://img.example/102")
    = truthy (thumb_small flat_thumb) || truthy (thumb_large flat_thumb).
Proof.
  assert (mapillary_find_best no_errors (always (data_reply [flat_thumb])) 0 0
            (Some "MLY|t") default_radii false []
          = (Ok (JStr "https://img.example/102", flat_thumb),
             [Get (closeto_request "MLY|t" 0 0)])) as Hrun by reflexivity.
  split; [exact Hrun|].
  apply (find_best_preview no_errors _ _ _ _ _ _ _ _ _ _ Hrun). discriminate.
Defined.

(** C1 fails as stated: the top-ranked record is returned although both
    of its thumbnail fields are absent, with an absent preview, and a
    record of the same reply that has a thumbnail is passed over. *)
Lemma find_best_returns_without_thumbnail :
  mapillary_find_best no_errors (always (data_reply [bare_pano; flat_thumb])) 0 0
    (Some "MLY|t") default_radii false []
  = (Ok (JNull, bare_pano), [Get (closeto_request "MLY|t" 0 0)])
  ∧ (JNull, bare_pano) ≠ Empty
  ∧ thumb_small bare_pano = JNull
  ∧ thumb_large bare_pano = JNull
  ∧ truthy (thumb_small flat_thumb) = true.
Proof. repeat split; try reflexivity. discriminate. Qed.

(** ** Missing geometry *)

Lemma absent_coordinate_ranking_witness :
  forallb well_formed [flat_thumb; bare_pano] = true
  ∧ rank_items no_errors 0 0 (JArr [flat_thumb; bare_pano])
    = Ok [rank_entry 0 0 bare_pano; rank_entry 0 0 flat_thumb]
  ∧ ∃ top ranked,
      rank_items no_errors 0 0 (JArr [flat_thumb; bare_pano]) = Ok (top :: ranked)
      ∧ coordinate (e_item top) = None
      ∧ mapillary_find_best no_errors
          (after_failures 2 (data_reply [flat_thumb; bare_pano])) 0 0
          (Some "MLY|t") ([150%R] ++ 300%R :: [600%R]) false []
        = (Ok (preview (e_item top), e_item top),
           [] ++ Get (closeto_request "MLY|t" 0 0)
              :: bbox_gets "MLY|t" 0 0 ([150%R] ++ [300%R])).
Proof.
  assert (∀ it, it ∈ [flat_thumb; bare_pano] → coordinate it = None) as Hno.
  { intros it Hit. apply list_elem_of_In in Hit.
    destruct Hit as [<-|[<-|[]]]; reflexivity. }
  split; [reflexivity|].
  destruct (absent_coordinate_ranking no_errors 0 0 [flat_thumb; bare_pano]
              eq_refl)
    as (_ & _ & Hr & Hsel).
  split; [rewrite (Hr Hno); reflexivity|].
  apply (Hsel (after_failures 2 (data_reply [flat_thumb; bare_pano])) "MLY|t"
           [150%R] 300%R [600%R] [] Hno).
  - discriminate.
  - reflexivity.
  - apply no_errors_offsets.
  - by left.
  - split; [by left|exact I].
  - eexists. split; [reflexivity|]. split; reflexivity.
Defined.

(** C7 fails as stated: a panoramic record without a coordinate is
    ranked in front of a flat record that has one, and a reply at the first
    radius that holds only a record without a coordinate produces the
    outcome of the search. *)
Lemma absent_coordinate_selected :
  coordinate bare_pano = None
  ∧ coordinate flat_here = Some (JNum 0, JNum 0)
  ∧ rank_items no_errors 0 0 (JArr [flat_here; bare_pano])
    = Ok [rank_entry 0 0 bare_pano; rank_entry 0 0 flat_here]
  ∧ coordinate flat_thumb = None
  ∧ mapillary_find_best no_errors (after_failures 1 (data_reply [flat_thumb])) 0 0
      (Some "MLY|t") default_radii false []
    = (Ok (JStr "https://img.example/102", flat_thumb),
       [Get (closeto_request "MLY|t" 0 0);
        Get (bbox_request "MLY|t" 0 0 150)]).
Proof. repeat split; reflexivity. Qed.

(** ** The two phases *)

Lemma direct_reply_dropped_witness :
  mapillary_find_best antipode_error (always (data_reply [antipode]))
    far_lat far_lon (Some "MLY|t") [150%R] false []
  = (Ok Empty,
     [Get (closeto_request "MLY|t" far_lat far_lon);
      Get (bbox_request "MLY|t" far_lat far_lon 150)]).
Proof.
  destruct (direct_reply_dropped antipode_error (always (data_reply [antipode]))
              far_lat far_lon "MLY|t" [150%R] []
              (list_to_map [("data", JArr [antipode])]) [antipode]
              eq_refl eq_refl eq_refl eq_refl
              (antipode_unreadable [antipode] ltac:(left)))
    as [_ Hrun].
  rewrite Hrun.
  rewrite (cascade_cons antipode_error) by reflexivity.
  unfold always. cbn beta.
  rewrite (answer_distance_fails antipode_error false far_lat far_lon _
             antipode_reply_fails).
  reflexivity.
Defined.

Lemma direct_attempt_short_circuit_witness :
  mapillary_find_best no_errors (always (data_reply [flat_thumb])) 0 0
    (Some "MLY|t") default_radii false []
  = (Ok (preview flat_thumb, flat_thumb), [Get (closeto_request "MLY|t" 0 0)])
  ∧ mapillary_find_best no_errors (always (data_reply [flat_thumb])) 0 0
      (Some "MLY|t") default_radii true []
    = cascade no_errors (always (data_reply [flat_thumb])) 0 0 "MLY|t" true
        default_radii [Get (closeto_request "MLY|t" 0 0)].
Proof.
  assert (carries no_errors 0 0
            (always (data_reply [flat_thumb]) [] (closeto_request "MLY|t" 0 0))
            [flat_thumb]) as Hc.
  { eexists. split; [reflexivity|]. split; reflexivity. }
  destruct (direct_attempt_short_circuit no_errors
              (always (data_reply [flat_thumb])) 0 0 "MLY|t" default_radii []
              [flat_thumb] eq_refl Hc)
    as [Ha Hb].
  split.
  - destruct (Ha ltac:(discriminate)) as (t & Ht & _ & Hrun).
    change (head (rank 0 0 [flat_thumb]))
      with (Some (rank_entry 0 0 flat_thumb)) in Ht.
    injection Ht as <-. exact Hrun.
  - apply Hb. intros it Hit. apply list_elem_of_In in Hit.
    destruct Hit as [<-|[]]. reflexivity.
Defined.

Lemma radius_reply_dropped_witness :
  cascade antipode_error (after_failures 1 (data_reply [antipode]))
    far_lat far_lon "MLY|t" false [150; 300]%R
    [Get (closeto_request "MLY|t" far_lat far_lon)]
  = (Ok Empty,
     [Get (closeto_request "MLY|t" far_lat far_lon);
      Get (bbox_request "MLY|t" far_lat far_lon 150);
      Get (bbox_request "MLY|t" far_lat far_lon 300)]).
Proof.
  destruct (radius_reply_dropped antipode_error
              (after_failures 1 (data_reply [antipode]))
              far_lat far_lon "MLY|t" 150%R [300%R]
              [Get (closeto_request "MLY|t" far_lat far_lon)]
              (list_to_map [("data", JArr [antipode])]) [antipode]
              eq_refl eq_refl eq_refl eq_refl
              (antipode_unreadable [antipode] ltac:(left)))
    as [_ Hrun].
  rewrite Hrun.
  rewrite (cascade_cons antipode_error) by reflexivity.
  change (after_failures 1 (data_reply [antipode]) _ _)
    with (data_reply [antipode]).
  rewrite (answer_distance_fails antipode_error false far_lat far_lon _
             antipode_reply_fails).
  reflexivity.
Defined.

Lemma cascade_first_qualifying_radius_witness :
  mapillary_find_best no_errors (after_failures 2 (data_reply [flat_thumb])) 0 0
    (Some "MLY|t") [150; 300; 600]%R false []
  = (Ok (preview flat_thumb, flat_thumb),
     [Get (closeto_request "MLY|t" 0 0);
      Get (bbox_request "MLY|t" 0 0 150);
      Get (bbox_request "MLY|t" 0 0 300)]).
Proof.
  pose proof (cascade_first_qualifying_radius no_errors
                (after_failures 2 (data_reply [flat_thumb])) 0 0 "MLY|t"
                [150; 300; 600]%R false [] eq_refl
                (no_errors_offsets 0 [150; 300; 600]%R) (or_introl I))
    as [H _].
  apply (H [150%R] 300%R [600%R] flat_thumb eq_refl).
  - split; [by left|exact I].
  - exists [flat_thumb]. split; [|reflexivity].
    eexists. split; [reflexivity|]. split; reflexivity.
Defined.

(** ** Failure handling *)


(** ** What the resolver does with a reply *)

Lemma unreadable_record_discards_reply_witness :
  mapillary_find_best no_errors (always (data_reply [flat_thumb; bad_geometry])) 0 0
    (Some "MLY|t") [] false []
  = (Ok Empty, [Get (closeto_request "MLY|t" 0 0)]).
Proof.
  destruct (unreadable_record_discards_reply no_errors
              (always (data_reply [flat_thumb; bad_geometry])) 0 0 "MLY|t" []
              false [] eq_refl) as [H _].
  rewrite H; [reflexivity|].
  exists (list_to_map [("data", JArr [flat_thumb; bad_geometry])]),
    [flat_thumb; bad_geometry], bad_geometry.
  split; [reflexivity|]. split; [reflexivity|].
  split; [right; left|reflexivity].
Defined.

Lemma misshapen_body_discards_reply_witness :
  mapillary_find_best no_errors (always (Reply true (Some (JArr [flat_thumb])))) 0 0
    (Some "MLY|t") [] false []
  = (Ok Empty, [Get (closeto_request "MLY|t" 0 0)]).
Proof.
  destruct (misshapen_body_discards_reply no_errors
              (always (Reply true (Some (JArr [flat_thumb])))) 0 0 "MLY|t" []
              false [] eq_refl) as [H _].
  rewrite H; [reflexivity|].
  exists (JArr [flat_thumb]). split; [reflexivity|]. by left.
Defined.

Lemma returned_prefers_panorama_witness :
  ∃ it,
    mapillary_find_best no_errors (always (data_reply [flat_here; bare_pano])) 0 0
      (Some "MLY|t") default_radii false []
    = (Ok (preview it, it), [Get (closeto_request "MLY|t" 0 0)])
    ∧ is_pano it = true.
Proof.
  assert (carries no_errors 0 0 (always (data_reply [flat_here; bare_pano]) []
                     (closeto_request "MLY|t" 0 0)) [flat_here; bare_pano]) as Hc.
  { eexists. split; [reflexivity|]. split; reflexivity. }
  destruct (returned_prefers_panorama no_errors
              (always (data_reply [flat_here; bare_pano])) 0 0 "MLY|t"
              default_radii [] [flat_here; bare_pano] eq_refl Hc
              ltac:(discriminate))
    as (it & Hrun & _ & Hp & _).
  exists it. split; [exact Hrun|].
  apply (Hp bare_pano); [right; left|reflexivity].
Defined.

Lemma returned_nearest_panorama_witness :
  ∃ it,
    mapillary_find_best no_errors (always (data_reply [flat_here; bare_pano])) 0 0
      (Some "MLY|t") default_radii true []
    = (Ok (preview it, it), [Get (closeto_request "MLY|t" 0 0)])
    ∧ is_pano it = true.
Proof.
  assert (carries no_errors 0 0 (always (data_reply [flat_here; bare_pano]) []
                     (closeto_request "MLY|t" 0 0)) [flat_here; bare_pano]) as Hc.
  { eexists. split; [reflexivity|]. split; reflexivity. }
  assert (bare_pano ∈ [flat_here; bare_pano]) as Hin by (right; left).
  destruct (returned_nearest_panorama no_errors
              (always (data_reply [flat_here; bare_pano])) 0 0 "MLY|t"
              default_radii [] [flat_here; bare_pano] bare_pano eq_refl Hc
              Hin eq_refl)
    as (it & Hrun & _ & Hp & _).
  exists it. split; [exact Hrun|exact Hp].
Defined.

Lemma search_requests_witness :
  ∃ k, (k <= length default_radii)%nat
       ∧ [Get (closeto_request "MLY|t" 0 0); Get (bbox_request "MLY|t" 0 0 150)]
         = [] ++ Get (closeto_request "MLY|t" 0 0)
                 :: bbox_gets "MLY|t" 0 0 (take k default_radii)
       ∧ ((JStr "https://img.example/102", flat_thumb) = Empty →
          k = length default_radii).
Proof.
  apply (search_requests no_errors (after_failures 1 (data_reply [flat_thumb])) 0 0
           "MLY|t" default_radii false []); reflexivity.
Defined.

Lemma returned_record_from_last_reply_witness :
  ∃ tr0 rq m l,
    [Get (closeto_request "MLY|t" 0 0); Get (bbox_request "MLY|t" 0 0 150)]
    = tr0 ++ [Get rq]
    ∧ after_failures 1 (data_reply [flat_thumb]) tr0 rq
      = Reply true (Some (JObj m))
    ∧ m !! "data" = Some (JArr l)
    ∧ flat_thumb ∈ l.
Proof.
  apply (returned_record_from_last_reply no_errors
           (after_failures 1 (data_reply [flat_thumb])) 0 0 (Some "MLY|t")
           default_radii false [] _ (JStr "https://img.example/102") flat_thumb);
    [reflexivity|discriminate].
Defined.

Lemma required_panorama_is_panoramic_witness : is_pano bare_pano = true.
Proof.
  apply (required_panorama_is_panoramic no_errors
           (always (data_reply [flat_here; bare_pano])) 0 0 (Some "MLY|t")
           default_radii [] [Get (closeto_request "MLY|t" 0 0)] JNull bare_pano);
    [reflexivity|discriminate].
Defined.

Lemma offsets_error_escapes_witness :
  mapillary_find_best overflow_error (always NoReply) 0 0 (Some "MLY|t")
    [150; 10 ^ 309; 600]%R false []
  = (Exc OverflowError,
     [Get (closeto_request "MLY|t" 0 0); Get (bbox_request "MLY|t" 0 0 150)]).
Proof.
  assert (150 <= 10 ^ 308)%R as Hsmall.
  { apply Rle_trans with (10 ^ 3)%R; [lra|]. apply Rle_pow; [lra|lia]. }
  assert (10 ^ 308 < 10 ^ 309)%R as Hlarge by (apply Rlt_pow; [lra|lia]).
  apply (offsets_error_escapes overflow_error (always NoReply) 0 0 "MLY|t"
           [150%R] (10 ^ 309)%R [600%R] false [] OverflowError).
  - reflexivity.
  - apply Forall_forall. intros r ->%list_elem_of_singleton.
    change (offsets_error overflow_error 0 150)
      with (if Rlt_dec (10 ^ 308) 150 then Some OverflowError else None).
    destruct (Rlt_dec (10 ^ 308) 150); [exfalso; lra|done].
  - change (offsets_error overflow_error 0 (10 ^ 309))
      with (if Rlt_dec (10 ^ 308) (10 ^ 309) then Some OverflowError else None).
    destruct (Rlt_dec (10 ^ 308) (10 ^ 309)); [done|exfalso; lra].
  - by left.
  - split; [by left|exact I].
Defined.

(** ** The page script *)

Lemma search_preconditions_stop_witness :
  ∃ n, on_search (always NoReply) no_float keep_all "" (Some "MLY|t") []
       = (Ok (Stopped n), []).
Proof.
  apply (search_preconditions_stop (always NoReply) no_float keep_all ""
           (Some "MLY|t") []).
  by left.
Defined.

Lemma shown_view_has_preview_witness :
  truthy (v_static_url flat_view) = true
  ∧ v_static_url flat_view = preview (v_meta flat_view)
  ∧ v_is_pano flat_view = is_pano (v_meta flat_view)
  ∧ (if v_is_pano flat_view
     then ∃ u, v_pano_url flat_view = Some u ∧ truthy u = true
     else v_pano_url flat_view = None).
Proof.
  apply (shown_view_has_preview no_errors (always (data_reply [flat_thumb])) no_utc_date
           no_iso_date plain_str 0 0 (Some "MLY|t") false []
           [Get (closeto_request "MLY|t" 0 0)] [] flat_view).
  reflexivity.
Defined.

Lemma success_notice_only_with_panorama_witness :
  ([Success "Panoramic image found."] = [Success "Panoramic image found."]
   ∧ ∃ v, Continue pano_view = Continue v ∧ v_is_pano v = true)
  ∨ [Success "Panoramic image found."]
    = [Info "No panoramic image nearby — showing the closest available photo."].
Proof.
  apply (success_notice_only_with_panorama no_errors (always (data_reply [pano_large]))
           no_utc_date no_iso_date plain_str 0 0 (Some "MLY|t") []
           [Get (closeto_request "MLY|t" 0 0)]).
  reflexivity.
Defined.

Lemma stopped_search_keeps_session_witness :
  ∃ n, script_run no_errors (always (Reply true (Some one_match))) no_float
         keep_all no_utc_date no_iso_date plain_str plain_text drawn shown
         shown true "Paris" (Some "token") true
         (Some (Geo 48 2 (JStr "Paris"))) []
       = (Ok (Some (Geo 48 2 (JStr "Paris")), [n], None), []).
Proof.
  apply (stopped_search_keeps_session no_errors
           (always (Reply true (Some one_match))) no_float keep_all no_utc_date
           no_iso_date plain_str plain_text drawn shown shown "Paris"
           (Some "token") true (Some (Geo 48 2 (JStr "Paris"))) []).
  right. right. exists "token". split; reflexivity.
Defined.
